(** * NexUS planet viewer: the 3D engine of [webgl3d.js]

    A shallow embedding of the rendering and camera-control engine
    ([PlanetSystem3D], [mat4], [mat3]) and the properties its specification
    states about it.

    Numbers.  A JavaScript number is modelled as a real number ([R]): the
    arithmetic of the engine is taken exact, so rounding, overflow and NaN
    are outside the model.  Where rounding decides a property, the easing
    step of the camera, the step is given in binary64 as well (module
    [Binary64]).  Integer loop counters and vertex indices are natural
    numbers.

    Buffers.  A [Float32Array] (or a plain numeric array) is a [list R];
    [out[i] = v] is [store i v out], which, as for a typed array, leaves the
    buffer alone when [i] is past its end.

    Effects.  Calls of the WebGL context (uniform uploads, draw calls, buffer
    allocation) do not appear: the state that is modelled is the state the
    engine object itself holds (clock, camera controls, mouse, camera,
    matrices, current planet and the cursor it sets). *)

From Stdlib Require Import Reals Lra Lia List Bool Arith.
From Stdlib Require PrimFloat.
Import ListNotations.

Open Scope R_scope.

(** ** Numeric buffers *)

Definition buffer := list R.

(** [a[i]] *)
Definition get (a : buffer) (i : nat) : R := nth i a 0.

(** [out[i] = v] on a typed array: a write past the end is dropped. *)
Fixpoint store (i : nat) (v : R) (out : buffer) : buffer :=
  match out, i with
  | [], _ => []
  | _ :: t, O => v :: t
  | x :: t, S i' => x :: store i' v t
  end.

(** One assignment [out[i] = v], as data. *)
Definition wr (i : nat) (v : R) : nat * R := (i, v).

(** A run of assignments [out[i1] = v1; out[i2] = v2; ...], in order. *)
Definition assign (out : buffer) (ws : list (nat * R)) : buffer :=
  fold_left (fun b w => store (fst w) (snd w) b) ws out.

(** ** JavaScript truthiness of numbers *)

(** A property of a record that may be absent ([undefined]). *)
Definition jsnum := option R.

(** [x || d]: [d] when [x] is absent or zero, [x] otherwise. *)
Definition jsOr (x : jsnum) (d : R) : R :=
  match x with
  | Some v => if Req_dec_T v 0 then d else v
  | None => d
  end.

(** [x > c]: false when [x] is absent. *)
Definition jsGt (x : jsnum) (c : R) : bool :=
  match x with
  | Some v => if Rlt_dec c v then true else false
  | None => false
  end.

(** ** The matrix library *)

Module mat4.

Definition create : buffer := repeat 0 16.

Definition identity (out : buffer) : buffer :=
  assign out
    [ wr 0 1; wr 1 0; wr 2 0; wr 3 0;
      wr 4 0; wr 5 1; wr 6 0; wr 7 0;
      wr 8 0; wr 9 0; wr 10 1; wr 11 0;
      wr 12 0; wr 13 0; wr 14 0; wr 15 1 ].

Definition perspective (out : buffer) (fovy aspect near far : R) : buffer :=
  let f := 1 / tan (fovy / 2) in
  assign out
    [ wr 0 (f / aspect); wr 1 0; wr 2 0; wr 3 0;
      wr 4 0; wr 5 f; wr 6 0; wr 7 0;
      wr 8 0; wr 9 0; wr 10 ((far + near) / (near - far));
      wr 11 (-1);
      wr 12 0; wr 13 0;
      wr 14 ((2 * far * near) / (near - far)); wr 15 0 ].

Definition lookAt (out eye center up : buffer) : buffer :=
  let eyex := get eye 0 in let eyey := get eye 1 in let eyez := get eye 2 in
  let upx := get up 0 in let upy := get up 1 in let upz := get up 2 in
  let centerx := get center 0 in
  let centery := get center 1 in
  let centerz := get center 2 in
  let z0 := eyex - centerx in
  let z1 := eyey - centery in
  let z2 := eyez - centerz in
  let len := 1 / sqrt (z0 * z0 + z1 * z1 + z2 * z2) in
  let z0 := z0 * len in let z1 := z1 * len in let z2 := z2 * len in
  let x0 := upy * z2 - upz * z1 in
  let x1 := upz * z0 - upx * z2 in
  let x2 := upx * z1 - upy * z0 in
  let len := sqrt (x0 * x0 + x1 * x1 + x2 * x2) in
  let '(x0, x1, x2) :=
    if Req_dec_T len 0 then (0, 0, 0)
    else let len := 1 / len in (x0 * len, x1 * len, x2 * len) in
  let y0 := z1 * x2 - z2 * x1 in
  let y1 := z2 * x0 - z0 * x2 in
  let y2 := z0 * x1 - z1 * x0 in
  assign out
    [ wr 0 x0; wr 1 y0; wr 2 z0; wr 3 0;
      wr 4 x1; wr 5 y1; wr 6 z1; wr 7 0;
      wr 8 x2; wr 9 y2; wr 10 z2; wr 11 0;
      wr 12 (- (x0 * eyex + x1 * eyey + x2 * eyez));
      wr 13 (- (y0 * eyex + y1 * eyey + y2 * eyez));
      wr 14 (- (z0 * eyex + z1 * eyey + z2 * eyez));
      wr 15 1 ].

(** [translate], [rotateY] and [scale] are called with [out] and [a] the
    same buffer.  No statement of theirs reads an entry that an earlier
    statement of the same call wrote, so reading [a] as it was on entry is
    what the source does in both the aliased and the unaliased call. *)

Definition translate (out a v : buffer) : buffer :=
  let x := get v 0 in let y := get v 1 in let z := get v 2 in
  assign out
    [ wr 12 (get a 0 * x + get a 4 * y + get a 8 * z + get a 12);
      wr 13 (get a 1 * x + get a 5 * y + get a 9 * z + get a 13);
      wr 14 (get a 2 * x + get a 6 * y + get a 10 * z + get a 14);
      wr 15 (get a 3 * x + get a 7 * y + get a 11 * z + get a 15) ].

Definition rotateY (out a : buffer) (rad : R) : buffer :=
  let s := sin rad in let c := cos rad in
  let a00 := get a 0 in let a01 := get a 1 in
  let a02 := get a 2 in let a03 := get a 3 in
  let a20 := get a 8 in let a21 := get a 9 in
  let a22 := get a 10 in let a23 := get a 11 in
  assign out
    [ wr 0 (a00 * c - a20 * s); wr 1 (a01 * c - a21 * s);
      wr 2 (a02 * c - a22 * s); wr 3 (a03 * c - a23 * s);
      wr 8 (a00 * s + a20 * c); wr 9 (a01 * s + a21 * c);
      wr 10 (a02 * s + a22 * c); wr 11 (a03 * s + a23 * c) ].

Definition scale (out a v : buffer) : buffer :=
  let x := get v 0 in let y := get v 1 in let z := get v 2 in
  assign out
    [ wr 0 (get a 0 * x); wr 1 (get a 1 * x);
      wr 2 (get a 2 * x); wr 3 (get a 3 * x);
      wr 4 (get a 4 * y); wr 5 (get a 5 * y);
      wr 6 (get a 6 * y); wr 7 (get a 7 * y);
      wr 8 (get a 8 * z); wr 9 (get a 9 * z);
      wr 10 (get a 10 * z); wr 11 (get a 11 * z) ].

End mat4.

Module mat3.

Definition create : buffer := repeat 0 9.

(** The result is the pair of what the call returns ([None] for [null],
    [Some] of the buffer for [out]) and the contents of [out] after the
    call. *)
Definition normalFromMat4 (out a : buffer) : option buffer * buffer :=
  let a00 := get a 0 in let a01 := get a 1 in let a02 := get a 2 in
  let a10 := get a 4 in let a11 := get a 5 in let a12 := get a 6 in
  let a20 := get a 8 in let a21 := get a 9 in let a22 := get a 10 in
  let b01 := a22 * a11 - a12 * a21 in
  let b11 := - a22 * a10 + a12 * a20 in
  let b21 := a21 * a10 - a11 * a20 in
  let det := a00 * b01 + a01 * b11 + a02 * b21 in
  if Req_dec_T det 0 then (None, out)
  else
    let det := 1 / det in
    let out' :=
      assign out
        [ wr 0 (b01 * det);
          wr 1 ((- a22 * a01 + a02 * a21) * det);
          wr 2 ((a12 * a01 - a02 * a11) * det);
          wr 3 (b11 * det);
          wr 4 ((a22 * a00 - a02 * a20) * det);
          wr 5 ((- a12 * a00 + a02 * a10) * det);
          wr 6 (b21 * det);
          wr 7 ((- a21 * a00 + a01 * a20) * det);
          wr 8 ((a11 * a00 - a01 * a10) * det) ] in
    (Some out', out').

End mat3.

(** ** Records of the engine *)

(** The fields of a planet record that the engine reads; each may be absent. *)
Record PlanetRecord := mkPlanet {
  period_days : jsnum;
  a_over_rstar : jsnum;
  radius_rearth : jsnum;
  eq_temp_k : jsnum;
  teff_k : jsnum;
  star_rad_rsun : jsnum
}.

Record CameraControls := mkControls {
  distance : R;
  minDistance : R;
  maxDistance : R;
  azimuth : R;
  elevation : R;
  targetAzimuth : R;
  targetElevation : R;
  targetDistance : R;
  damping : R;
  autoRotate : bool;
  autoRotateSpeed : R
}.

Record Mouse := mkMouse {
  isDown : bool;
  lastX : R;
  lastY : R;
  sensitivity : R
}.

Record Camera := mkCamera {
  position : buffer;
  target : buffer;
  up : buffer;
  fov : R;
  near : R;
  far : R
}.

(** [canvas.style.cursor] *)
Inductive Cursor := grab | grabbing | cursorUnset.

(** The engine object, with the cursor it sets on its canvas.  The size of
    the canvas belongs to the page: a frame reads it as an input. *)
Record PlanetSystem3D := mkSystem {
  time : R;
  lastFrameTime : R;
  orbitSpeed : R;
  cameraControls : CameraControls;
  mouse : Mouse;
  camera : Camera;
  modelMatrix : buffer;
  viewMatrix : buffer;
  projectionMatrix : buffer;
  normalMatrix : buffer;
  currentPlanet : option PlanetRecord;
  cursor : Cursor
}.

(** Field updates [this.f = v]. *)

Definition withControls (c : CameraControls) (s : PlanetSystem3D) :=
  mkSystem (time s) (lastFrameTime s) (orbitSpeed s) c (mouse s) (camera s)
    (modelMatrix s) (viewMatrix s) (projectionMatrix s) (normalMatrix s)
    (currentPlanet s) (cursor s).

Definition withMouse (m : Mouse) (s : PlanetSystem3D) :=
  mkSystem (time s) (lastFrameTime s) (orbitSpeed s) (cameraControls s) m
    (camera s) (modelMatrix s) (viewMatrix s) (projectionMatrix s)
    (normalMatrix s) (currentPlanet s) (cursor s).

Definition withCursor (c : Cursor) (s : PlanetSystem3D) :=
  mkSystem (time s) (lastFrameTime s) (orbitSpeed s) (cameraControls s)
    (mouse s) (camera s) (modelMatrix s) (viewMatrix s) (projectionMatrix s)
    (normalMatrix s) (currentPlanet s) c.

Definition withClock (t last : R) (s : PlanetSystem3D) :=
  mkSystem t last (orbitSpeed s) (cameraControls s) (mouse s) (camera s)
    (modelMatrix s) (viewMatrix s) (projectionMatrix s) (normalMatrix s)
    (currentPlanet s) (cursor s).

Definition withPosition (p : buffer) (s : PlanetSystem3D) :=
  mkSystem (time s) (lastFrameTime s) (orbitSpeed s) (cameraControls s)
    (mouse s)
    (mkCamera p (target (camera s)) (up (camera s)) (fov (camera s))
       (near (camera s)) (far (camera s)))
    (modelMatrix s) (viewMatrix s) (projectionMatrix s) (normalMatrix s)
    (currentPlanet s) (cursor s).

Definition withModelMatrix (m : buffer) (s : PlanetSystem3D) :=
  mkSystem (time s) (lastFrameTime s) (orbitSpeed s) (cameraControls s)
    (mouse s) (camera s) m (viewMatrix s) (projectionMatrix s)
    (normalMatrix s) (currentPlanet s) (cursor s).

Definition withViewMatrix (m : buffer) (s : PlanetSystem3D) :=
  mkSystem (time s) (lastFrameTime s) (orbitSpeed s) (cameraControls s)
    (mouse s) (camera s) (modelMatrix s) m (projectionMatrix s)
    (normalMatrix s) (currentPlanet s) (cursor s).

Definition withProjectionMatrix (m : buffer) (s : PlanetSystem3D) :=
  mkSystem (time s) (lastFrameTime s) (orbitSpeed s) (cameraControls s)
    (mouse s) (camera s) (modelMatrix s) (viewMatrix s) m (normalMatrix s)
    (currentPlanet s) (cursor s).

Definition withNormalMatrix (m : buffer) (s : PlanetSystem3D) :=
  mkSystem (time s) (lastFrameTime s) (orbitSpeed s) (cameraControls s)
    (mouse s) (camera s) (modelMatrix s) (viewMatrix s) (projectionMatrix s)
    m (currentPlanet s) (cursor s).

Definition withPlanet (p : option PlanetRecord) (s : PlanetSystem3D) :=
  mkSystem (time s) (lastFrameTime s) (orbitSpeed s) (cameraControls s)
    (mouse s) (camera s) (modelMatrix s) (viewMatrix s) (projectionMatrix s)
    (normalMatrix s) p (cursor s).

(** ** The constructor's field values *)

Definition initialControls : CameraControls :=
  {| distance := 12; minDistance := 3; maxDistance := 40;
     azimuth := 0; elevation := 0.3;
     targetAzimuth := 0; targetElevation := 0.3; targetDistance := 12;
     damping := 0.1; autoRotate := true; autoRotateSpeed := 0.15 |}.

Definition initialMouse : Mouse :=
  {| isDown := false; lastX := 0; lastY := 0; sensitivity := 0.005 |}.

Definition initialCamera : Camera :=
  {| position := [8; 5; 8]; target := [0; 0; 0]; up := [0; 1; 0];
     fov := 80; near := 0.1; far := 500 |}.

(** The engine as the constructor has filled it in, before [init] runs the
    first frame. *)
Definition initialSystem : PlanetSystem3D :=
  {| time := 0; lastFrameTime := 0; orbitSpeed := 10;
     cameraControls := initialControls;
     mouse := initialMouse;
     camera := initialCamera;
     modelMatrix := mat4.create;
     viewMatrix := mat4.create;
     projectionMatrix := mat4.create;
     normalMatrix := mat3.create;
     currentPlanet := None;
     cursor := cursorUnset |}.

(** ** Input handlers ([setupControls]) *)

(** The first [mousedown] listener. *)
Definition onMouseDown1 (clientX clientY : R) (s : PlanetSystem3D) :=
  withCursor grabbing
    (withMouse (mkMouse true clientX clientY (sensitivity (mouse s))) s).

(** The second [mousedown] listener, which also stops the auto-rotation. *)
Definition onMouseDown2 (clientX clientY : R) (s : PlanetSystem3D) :=
  let s := withMouse (mkMouse true clientX clientY (sensitivity (mouse s))) s in
  let c := cameraControls s in
  let s :=
    withControls
      {| distance := distance c; minDistance := minDistance c;
         maxDistance := maxDistance c; azimuth := azimuth c;
         elevation := elevation c; targetAzimuth := targetAzimuth c;
         targetElevation := targetElevation c;
         targetDistance := targetDistance c; damping := damping c;
         autoRotate := false; autoRotateSpeed := autoRotateSpeed c |} s in
  withCursor grabbing s.

(** A [mousedown] event runs both listeners, in the order they were added. *)
Definition onMouseDown (clientX clientY : R) (s : PlanetSystem3D) :=
  onMouseDown2 clientX clientY (onMouseDown1 clientX clientY s).

Definition onMouseMove (clientX clientY : R) (s : PlanetSystem3D) :=
  if negb (isDown (mouse s)) then s
  else
    let deltaX := clientX - lastX (mouse s) in
    let deltaY := clientY - lastY (mouse s) in
    let c := cameraControls s in
    let s :=
      withControls
        {| distance := distance c; minDistance := minDistance c;
           maxDistance := maxDistance c; azimuth := azimuth c;
           elevation := elevation c;
           targetAzimuth := targetAzimuth c - deltaX * sensitivity (mouse s);
           targetElevation :=
             targetElevation c + deltaY * sensitivity (mouse s);
           targetDistance := targetDistance c; damping := damping c;
           autoRotate := autoRotate c;
           autoRotateSpeed := autoRotateSpeed c |} s in
    withMouse (mkMouse (isDown (mouse s)) clientX clientY
                 (sensitivity (mouse s))) s.

(** [mouseup] and [mouseleave] have the same body. *)
Definition onMouseUp (s : PlanetSystem3D) :=
  withCursor grab
    (withMouse (mkMouse false (lastX (mouse s)) (lastY (mouse s))
                  (sensitivity (mouse s))) s).

Definition onMouseLeave (s : PlanetSystem3D) := onMouseUp s.

Definition onWheel (deltaY : R) (s : PlanetSystem3D) :=
  let zoomSpeed := 0.1 in
  let delta := if Rlt_dec 0 deltaY then 1 else -1 in
  let c := cameraControls s in
  let td := targetDistance c * (1 + delta * zoomSpeed) in
  let td := Rmax (minDistance c) (Rmin (maxDistance c) td) in
  withControls
    {| distance := distance c; minDistance := minDistance c;
       maxDistance := maxDistance c; azimuth := azimuth c;
       elevation := elevation c; targetAzimuth := targetAzimuth c;
       targetElevation := targetElevation c;
       targetDistance := td; damping := damping c;
       autoRotate := false; autoRotateSpeed := autoRotateSpeed c |} s.

Definition onDblClick (s : PlanetSystem3D) :=
  let c := cameraControls s in
  withControls
    {| distance := distance c; minDistance := minDistance c;
       maxDistance := maxDistance c; azimuth := azimuth c;
       elevation := elevation c; targetAzimuth := 0;
       targetElevation := 0.3;
       targetDistance := 12; damping := damping c;
       autoRotate := true; autoRotateSpeed := autoRotateSpeed c |} s.

(** ** The sphere mesh *)

Record Mesh := mkMesh {
  positions : list R;
  normals : list R;
  uvs : list R;
  indices : list nat
}.

(** The loop [for (let i = 0; i <= n; i++)] visits [seq 0 (S n)], the loop
    [for (let i = 0; i < n; i++)] visits [seq 0 n]; every [push] appends, so
    a nest of loops that only pushes is a [flat_map] of its body. *)
Definition createSphere (radius : R) (segments rings : nat) : Mesh :=
  let vertex (f : R -> R -> R -> R -> R -> list R) :=
    flat_map (fun i =>
      let lat := PI * (-0.5 + INR i / INR rings) in
      let z := sin lat in
      let zr := cos lat in
      flat_map (fun j =>
        let lng := 2 * PI * (INR j / INR segments) in
        let x := cos lng * zr in
        let y := sin lng * zr in
        f x y z (INR j / INR segments) (INR i / INR rings))
        (seq 0 (S segments)))
      (seq 0 (S rings)) in
  {| positions := vertex (fun x y z _ _ => [x * radius; z * radius; y * radius]);
     normals := vertex (fun x y z _ _ => [x; z; y]);
     uvs := vertex (fun _ _ _ u v => [1 - u; 1 - v]);
     indices :=
       flat_map (fun i =>
         flat_map (fun j =>
           let first := (i * (segments + 1) + j)%nat in
           let second := (first + segments + 1)%nat in
           [first; second; (first + 1)%nat;
            second; (second + 1)%nat; (first + 1)%nat])
           (seq 0 segments))
         (seq 0 rings) |}.

(** Vertices of a mesh: three position components each. *)
Definition vertexCount (m : Mesh) : nat := (length (positions m) / 3)%nat.

(** ** Colours *)

Definition getStarColor (teff : jsnum) : list R :=
  if jsGt teff 6000 then [1.0; 1.0; 1.0]
  else if jsGt teff 5000 then [1.0; 1.0; 0.7]
  else if jsGt teff 4000 then [1.0; 0.6; 0.3]
  else if jsGt teff 3000 then [1.0; 0.3; 0.3]
  else [0.8; 0.2; 0.2].

Definition getPlanetColor (eqTemp : jsnum) : list R :=
  if jsGt eqTemp 1000 then [1.0; 0.4; 0.4]
  else if jsGt eqTemp 500 then [1.0; 0.6; 0.3]
  else if jsGt eqTemp 273 then [0.4; 0.6; 1.0]
  else if jsGt eqTemp 200 then [0.6; 0.6; 1.0]
  else [0.7; 0.7; 0.7].

(** ** The per-frame update *)

(** The easing step [current += (target - current) * damping]. *)
Definition damp (current target factor : R) : R :=
  current + (target - current) * factor.

Definition updateCamera (s : PlanetSystem3D) : PlanetSystem3D :=
  let c := cameraControls s in
  let c :=
    {| distance := damp (distance c) (targetDistance c) (damping c);
       minDistance := minDistance c; maxDistance := maxDistance c;
       azimuth := damp (azimuth c) (targetAzimuth c) (damping c);
       elevation := damp (elevation c) (targetElevation c) (damping c);
       targetAzimuth := targetAzimuth c;
       targetElevation := targetElevation c;
       targetDistance := targetDistance c; damping := damping c;
       autoRotate := autoRotate c; autoRotateSpeed := autoRotateSpeed c |} in
  let c :=
    if autoRotate c then
      {| distance := distance c; minDistance := minDistance c;
         maxDistance := maxDistance c; azimuth := azimuth c;
         elevation := elevation c;
         targetAzimuth := time s * autoRotateSpeed c * 2;
         targetElevation := 0.3 + sin (time s * 0.1) * 0.15;
         targetDistance := targetDistance c; damping := damping c;
         autoRotate := autoRotate c; autoRotateSpeed := autoRotateSpeed c |}
    else c in
  let s := withControls c s in
  let x := distance c * cos (elevation c) * cos (azimuth c) in
  let y := distance c * sin (elevation c) in
  let z := distance c * cos (elevation c) * sin (azimuth c) in
  let s :=
    withPosition (assign (position (camera s)) [wr 0 x; wr 1 y; wr 2 z]) s in
  withViewMatrix
    (mat4.lookAt (viewMatrix s) (position (camera s)) (target (camera s))
       (up (camera s))) s.

(** [width] and [height] are what the canvas reports. *)
Definition updateProjection (width height : R) (s : PlanetSystem3D) :=
  let aspect := width / height in
  withProjectionMatrix
    (mat4.perspective (projectionMatrix s) (fov (camera s) * PI / 180) aspect
       (near (camera s)) (far (camera s))) s.

Definition setPlanet (planet : option PlanetRecord) (s : PlanetSystem3D) :=
  withPlanet planet s.

(** [mat3.normalFromMat4(this.normalMatrix, this.modelMatrix)], the value it
    returns being dropped by both callers. *)
Definition updateNormalMatrix (s : PlanetSystem3D) :=
  withNormalMatrix (snd (mat3.normalFromMat4 (normalMatrix s) (modelMatrix s))) s.

Definition drawStar (planet : option PlanetRecord) (s : PlanetSystem3D) :=
  match planet with
  | None => s
  | Some planet =>
    let s := withModelMatrix (mat4.identity (modelMatrix s)) s in
    let starSize := Rmax 0.5 (Rmin 1.2 (jsOr (star_rad_rsun planet) 1 * 0.3)) in
    let s :=
      withModelMatrix
        (mat4.scale (modelMatrix s) (modelMatrix s)
           [starSize; starSize; starSize]) s in
    let s :=
      withModelMatrix
        (mat4.rotateY (modelMatrix s) (modelMatrix s) (time s * 0)) s in
    updateNormalMatrix s
  end.

(** The locals [orbitRadius], [orbitAngle] and
    [[planetX, planetY, planetZ]] of [drawPlanet]. *)
Definition orbitRadius (planet : PlanetRecord) : R :=
  Rmax 3.0 (Rmin 7 (jsOr (a_over_rstar planet) 10 * 0.2)).

Definition orbitAngle (s : PlanetSystem3D) (planet : PlanetRecord) : R :=
  time s * orbitSpeed s / jsOr (period_days planet) 1.

Definition planetPosition (s : PlanetSystem3D) (planet : PlanetRecord)
  : buffer :=
  let planetX := cos (orbitAngle s planet) * orbitRadius planet in
  let planetZ := sin (orbitAngle s planet) * orbitRadius planet in
  let planetY := 0 in
  [planetX; planetY; planetZ].

(** The points of the orbit path that [drawOrbit] uploads. *)
Definition orbitPath (radius : R) : list R :=
  let orbitPoints := 128%nat in
  flat_map (fun i =>
    let angle := (INR i / INR orbitPoints) * PI * 2 in
    [cos angle * radius; 0; sin angle * radius])
    (seq 0 (S orbitPoints)).

Definition drawOrbit (radius : R) (s : PlanetSystem3D) :=
  withModelMatrix (mat4.identity (modelMatrix s)) s.

(** [drawPlanet] up to its call of [drawSphere]: the model and normal
    matrices the planet is drawn with. *)
Definition placePlanet (planet : PlanetRecord) (s : PlanetSystem3D) :=
  let s0 := s in
  let s := withModelMatrix (mat4.identity (modelMatrix s)) s in
  let s :=
    withModelMatrix
      (mat4.translate (modelMatrix s) (modelMatrix s)
         (planetPosition s0 planet)) s in
  let planetSize :=
    Rmax 0.2 (Rmin 0.8 (jsOr (radius_rearth planet) 1 * 0.1)) in
  let s :=
    withModelMatrix
      (mat4.scale (modelMatrix s) (modelMatrix s)
         [planetSize; planetSize; planetSize]) s in
  let s :=
    withModelMatrix
      (mat4.rotateY (modelMatrix s) (modelMatrix s) (time s * 0)) s in
  updateNormalMatrix s.

Definition drawPlanet (planet : option PlanetRecord) (s : PlanetSystem3D) :=
  match planet with
  | None => s
  | Some planet => drawOrbit (orbitRadius planet) (placePlanet planet s)
  end.

(** One frame: [now] is [performance.now()], [width] and [height] the size
    of the canvas. *)
Definition animate (now width height : R) (s : PlanetSystem3D) :=
  let deltaTime := (now - lastFrameTime s) / 1000 in
  let s := withClock (time s + deltaTime) now s in
  let s := updateCamera s in
  let s := updateProjection width height s in
  match currentPlanet s with
  | Some planet => drawPlanet (Some planet) (drawStar (Some planet) s)
  | None => s
  end.

(** ** Events *)

Inductive Event :=
| MouseDown (clientX clientY : R)
| MouseMove (clientX clientY : R)
| MouseUp
| MouseLeave
| Wheel (deltaY : R)
| DblClick
| Frame (now width height : R)
| SetPlanet (planet : option PlanetRecord).

Definition handle (e : Event) (s : PlanetSystem3D) : PlanetSystem3D :=
  match e with
  | MouseDown x y => onMouseDown x y s
  | MouseMove x y => onMouseMove x y s
  | MouseUp => onMouseUp s
  | MouseLeave => onMouseLeave s
  | Wheel deltaY => onWheel deltaY s
  | DblClick => onDblClick s
  | Frame now width height => animate now width height s
  | SetPlanet planet => setPlanet planet s
  end.

(** The events of a run, oldest first. *)
Definition run (es : list Event) (s : PlanetSystem3D) : PlanetSystem3D :=
  fold_left (fun s e => handle e s) es s.

(** States the engine can be in: the constructor's state and whatever a
    run of events makes of it. *)
Inductive reachable : PlanetSystem3D -> Prop :=
| reachable_initial : reachable initialSystem
| reachable_step e s : reachable s -> reachable (handle e s).

(** ** Vocabulary of the specification *)

(** *** Camera easing *)

(** The three eased coordinates, each with its target. *)
Definition coordinates
  : list ((CameraControls -> R) * (CameraControls -> R)) :=
  [ (azimuth, targetAzimuth);
    (elevation, targetElevation);
    (distance, targetDistance) ].

(** [|current - target|] of one coordinate. *)
Definition gap (cur tgt : CameraControls -> R) (s : PlanetSystem3D) : R :=
  Rabs (cur (cameraControls s) - tgt (cameraControls s)).

Definition isFrame (e : Event) : Prop :=
  match e with Frame _ _ _ => True | _ => False end.

(** *** The distance range *)

(** What every handler keeps true of the camera controls. *)
Definition distanceInvariant (s : PlanetSystem3D) : Prop :=
  let c := cameraControls s in
  minDistance c = 3 /\ maxDistance c = 40 /\ damping c = 0.1 /\
  3 <= distance c <= 40 /\ 3 <= targetDistance c <= 40.

(** *** Wheel zoom *)

(** [sign(x)], as [Math.sign]: -1, 0 or 1. *)
Definition sign (x : R) : R :=
  if Rlt_dec 0 x then 1 else if Rlt_dec x 0 then -1 else 0.

(** The zoom factor in the specification's words. *)
Definition wheelFactorSpec (deltaY : R) : R := 1 + sign deltaY * 0.1.

(** The zoom factor the handler applies. *)
Definition wheelFactor (deltaY : R) : R :=
  if Rlt_dec 0 deltaY then 1.1 else 0.9.

Definition clamp (lo hi x : R) : R := Rmax lo (Rmin hi x).

(** *** Clip space *)

(** [m * v] for a [mat4] uniform uploaded untransposed and a [vec4], as the
    vertex shader computes it: entry [4 * c + r] of the buffer is row [r],
    column [c]. *)
Definition transform (m v : buffer) : buffer :=
  map (fun r =>
         get m r * get v 0 + get m (4 + r) * get v 1
         + get m (8 + r) * get v 2 + get m (12 + r) * get v 3)
      (seq 0 4).

(** Depth of a view-space point after projection and perspective division. *)
Definition ndcDepth (proj v : buffer) : R :=
  get (transform proj v) 2 / get (transform proj v) 3.

(** The point of the view axis at depth [d]: the camera looks down -z. *)
Definition onAxis (d : R) : buffer := [0; 0; - d; 1].

(** *** Vectors *)

Definition vec3 := (R * R * R)%type.

Definition dot (u v : vec3) : R :=
  let '(u0, u1, u2) := u in
  let '(v0, v1, v2) := v in
  u0 * v0 + u1 * v1 + u2 * v2.

Definition cross (u v : vec3) : vec3 :=
  let '(u0, u1, u2) := u in
  let '(v0, v1, v2) := v in
  (u1 * v2 - u2 * v1, u2 * v0 - u0 * v2, u0 * v1 - u1 * v0).

Definition sub (u v : vec3) : vec3 :=
  let '(u0, u1, u2) := u in
  let '(v0, v1, v2) := v in
  (u0 - v0, u1 - v1, u2 - v2).

Definition vec3_of (a : buffer) : vec3 := (get a 0, get a 1, get a 2).

Definition scale3 (k : R) (v : vec3) : vec3 :=
  let '(v0, v1, v2) := v in (v0 * k, v1 * k, v2 * k).

(** The three axes [lookAt] computes, as vectors: [z] from the target to
    the eye, [x] across [up] and [z], [y] across [z] and [x]. *)
Definition zAxis (eye center : buffer) : vec3 :=
  let z := sub (vec3_of eye) (vec3_of center) in
  scale3 (1 / sqrt (dot z z)) z.

Definition xAxis (eye center up : buffer) : vec3 :=
  let x := cross (vec3_of up) (zAxis eye center) in
  let len := sqrt (dot x x) in
  if Req_dec_T len 0 then (0, 0, 0) else scale3 (1 / len) x.

Definition yAxis (eye center up : buffer) : vec3 :=
  cross (zAxis eye center) (xAxis eye center up).

(** Row [r] of the upper-left 3x3 block of a [mat4]. *)
Definition row (m : buffer) (r : nat) : vec3 :=
  (get m r, get m (4 + r), get m (8 + r)).

(** *** The normal matrix *)

(** Determinant of the upper-left 3x3 block of a [mat4]. *)
Definition det3 (a : buffer) : R :=
  get a 0 * (get a 5 * get a 10 - get a 6 * get a 9)
  - get a 1 * (get a 4 * get a 10 - get a 6 * get a 8)
  + get a 2 * (get a 4 * get a 9 - get a 5 * get a 8).

Definition delta (i j : nat) : R := if Nat.eqb i j then 1 else 0.

(** [n] (a [mat3]) is the inverse of the upper-left 3x3 block of [a]:
    their product is the identity.  Both buffers hold their matrix in the
    same order, entry [k * c + r] being row [r], column [c]. *)
Definition isInverse3 (n a : buffer) : Prop :=
  forall i j, (i < 3)%nat -> (j < 3)%nat ->
    get n i * get a (4 * j) + get n (3 + i) * get a (4 * j + 1)
    + get n (6 + i) * get a (4 * j + 2) = delta i j.

(** [n] is the inverse-transpose of that block: the transpose of [n] is its
    inverse. *)
Definition isInverseTranspose3 (n a : buffer) : Prop :=
  forall i j, (i < 3)%nat -> (j < 3)%nat ->
    get n (3 * i) * get a (4 * j) + get n (3 * i + 1) * get a (4 * j + 1)
    + get n (3 * i + 2) * get a (4 * j + 2) = delta i j.

(** *** Colour tables *)

(** A step table: rows of threshold and colour, in descending order of
    threshold, and the colour of the last row ("else"). *)
Definition StepTable := (list (R * list R) * list R)%type.

Definition starTable : StepTable :=
  ([ (6000, [1.0; 1.0; 1.0]);
     (5000, [1.0; 1.0; 0.7]);
     (4000, [1.0; 0.6; 0.3]);
     (3000, [1.0; 0.3; 0.3]) ],
   [0.8; 0.2; 0.2]).

Definition planetTable : StepTable :=
  ([ (1000, [1.0; 0.4; 0.4]);
     (500, [1.0; 0.6; 0.3]);
     (273, [0.4; 0.6; 1.0]);
     (200, [0.6; 0.6; 1.0]) ],
   [0.7; 0.7; 0.7]).

(** First row that [matches], else the last colour. *)
Fixpoint firstMatch (matches : R -> bool) (rows : list (R * list R))
  (otherwise : list R) : list R :=
  match rows with
  | [] => otherwise
  | (threshold, colour) :: rest =>
    if matches threshold then colour else firstMatch matches rest otherwise
  end.

(** A row matches a temperature strictly above its threshold. *)
Definition lookupExclusive (t : StepTable) (x : jsnum) : list R :=
  firstMatch (fun threshold => jsGt x threshold) (fst t) (snd t).

(** [x >= c]: false when [x] is absent. *)
Definition jsGe (x : jsnum) (c : R) : bool :=
  match x with
  | Some v => if Rle_dec c v then true else false
  | None => false
  end.

(** A row matches a temperature at or above its threshold: the reading of
    the tables with inclusive lower bounds. *)
Definition lookupInclusive (t : StepTable) (x : jsnum) : list R :=
  firstMatch (fun threshold => jsGe x threshold) (fst t) (snd t).

(** *** Sample inputs *)

(** The record [script.js] falls back to when the data cannot be loaded
    (TOI-700 d). *)
Definition fallbackPlanet : PlanetRecord :=
  {| period_days := Some 37.426;
     a_over_rstar := Some 0.163;
     radius_rearth := Some 1.07;
     eq_temp_k := Some 268;
     teff_k := Some 3480;
     star_rad_rsun := Some 0.42 |}.

(** A model matrix with a shear: the identity with entry 1 set to 1. *)
Definition shear : buffer :=
  [ 1; 1; 0; 0;
    0; 1; 0; 0;
    0; 0; 1; 0;
    0; 0; 0; 1 ].

(** ** More of the engine *)

(** The locals [starSize] of [drawStar] and [planetSize] of [drawPlanet]. *)
Definition starSize (planet : PlanetRecord) : R :=
  Rmax 0.5 (Rmin 1.2 (jsOr (star_rad_rsun planet) 1 * 0.3)).

Definition planetSize (planet : PlanetRecord) : R :=
  Rmax 0.2 (Rmin 0.8 (jsOr (radius_rearth planet) 1 * 0.1)).

(** Vertex [k] of an attribute buffer read three components at a time, as
    [vertexAttribPointer(_, 3, FLOAT, false, 0, 0)] sets it up. *)
Definition vertexAt (l : list R) (k : nat) : vec3 :=
  (nth (3 * k) l 0, nth (3 * k + 1) l 0, nth (3 * k + 2) l 0).

(** Texture coordinates of vertex [k], read two at a time. *)
Definition uvAt (l : list R) (k : nat) : R * R :=
  (nth (2 * k) l 0, nth (2 * k + 1) l 0).

(** [new Uint16Array(indices)] in [setupBuffers]: every index is taken
    modulo 2^16. *)
Definition toUint16 (i : nat) : nat := (i mod 2 ^ 16)%nat.

Definition indexBuffer (m : Mesh) : list nat := map toUint16 (indices m).

(** The sphere [setupBuffers] builds. *)
Definition engineSphere : Mesh := createSphere 1 64 32.

(** ** The countdown of [script.js] *)

(** [timeRemaining], with what the two writers of it do: the one-second
    interval of [startAutoChange], and [loadRandomExoplanet] (a click on
    the button or the 30-second change) once that interval runs. *)
Inductive CountdownEvent := Tick | ManualChange.

(** The interval's callback: decrement, show, and start over at zero.  The
    result is the value shown and the value kept. *)
Definition countdownTick (timeRemaining : Z) : Z * Z :=
  let timeRemaining := (timeRemaining - 1)%Z in
  let shown := timeRemaining in
  (shown, if (timeRemaining <=? 0)%Z then 30%Z else timeRemaining).

Definition countdownStep (e : CountdownEvent) (timeRemaining : Z) : Z :=
  match e with
  | Tick => snd (countdownTick timeRemaining)
  | ManualChange => 30%Z
  end.

(** [startAutoChange] sets the counter to 30. *)
Definition countdownRun (es : list CountdownEvent) : Z :=
  fold_left (fun t e => countdownStep e t) es 30%Z.

(** ** Easing, in exact arithmetic and in the code's *)

(** What it is for coordinate [cur] to ease to its target [tgt] from state
    [s] on, over runs of frames: the target stays what it was and after
    [n] frames the gap is [0.9 ^ n] times what it was; each frame leaves
    the gap no larger, and strictly smaller unless it is zero; and for
    every [eps > 0] there is a number of frames from which on the gap
    stays below [eps]. *)
Definition easesTo (cur tgt : CameraControls -> R) (s : PlanetSystem3D)
  : Prop :=
  (forall es, Forall isFrame es ->
     tgt (cameraControls (run es s)) = tgt (cameraControls s) /\
     gap cur tgt (run es s) = 0.9 ^ length es * gap cur tgt s) /\
  (forall es e, Forall isFrame es -> isFrame e ->
     gap cur tgt (handle e (run es s)) <= gap cur tgt (run es s) /\
     (gap cur tgt (run es s) <> 0 ->
      gap cur tgt (handle e (run es s)) < gap cur tgt (run es s))) /\
  (forall eps, 0 < eps ->
     exists N, forall es, Forall isFrame es -> (N <= length es)%nat ->
       gap cur tgt (run es s) < eps).

(** The numbers of the engine are binary64 values, and every operation on
    them rounds to nearest.  This is the step of [damp] as the code
    computes it. *)
Module Binary64.
Import PrimFloat.

(** [0.1]: the nearest binary64 value. *)
Definition tenth : float := 0x1.999999999999ap-4%float.

Definition damp64 (current target factor : float) : float :=
  (current + (target - current) * factor)%float.

(** [|current - target|] *)
Definition gap64 (current target : float) : float :=
  abs (current - target)%float.

(** The distance the constructor sets, and the target distance after one
    wheel notch out, [12 * (1 + 1 * 0.1)], which the clamp leaves alone. *)
Definition start : float := 12%float.

Definition target : float := (start * (1 + 1 * tenth))%float.

(** The distance after [n] frames of easing from [start] to [target]. *)
Definition frames64 (n : nat) : float :=
  Nat.iter n (fun current => damp64 current target tenth) start.

(** [5 * 2^-49], about 8.88e-15. *)
Definition stall : float := 0x1.4p-47%float.

End Binary64.

(** * Properties *)

(** ** What the handlers leave alone *)

Section Frames.

Lemma controls_drawStar planet s :
  cameraControls (drawStar planet s) = cameraControls s.
Proof. destruct planet; reflexivity. Qed.

Lemma controls_drawPlanet planet s :
  cameraControls (drawPlanet planet s) = cameraControls s.
Proof. destruct planet; reflexivity. Qed.

Lemma controls_updateProjection w h s :
  cameraControls (updateProjection w h s) = cameraControls s.
Proof. reflexivity. Qed.

Lemma controls_animate now w h s :
  cameraControls (animate now w h s) =
  cameraControls
    (updateCamera (withClock (time s + (now - lastFrameTime s) / 1000) now s)).
Proof.
  unfold animate.
  destruct (currentPlanet _); [|reflexivity].
  now rewrite controls_drawPlanet, controls_drawStar.
Qed.

Lemma orbitSpeed_drawStar planet s :
  orbitSpeed (drawStar planet s) = orbitSpeed s.
Proof. destruct planet; reflexivity. Qed.

Lemma orbitSpeed_drawPlanet planet s :
  orbitSpeed (drawPlanet planet s) = orbitSpeed s.
Proof. destruct planet; reflexivity. Qed.

Lemma orbitSpeed_handle e s : orbitSpeed (handle e s) = orbitSpeed s.
Proof.
  destruct e; try reflexivity.
  - cbn. unfold onMouseMove. now destruct (negb _).
  - cbn. unfold animate.
    destruct (currentPlanet _); [|reflexivity].
    now rewrite orbitSpeed_drawPlanet, orbitSpeed_drawStar.
Qed.

Lemma orbitSpeed_reachable s : reachable s -> orbitSpeed s = 10.
Proof.
  induction 1; [reflexivity|]. now rewrite orbitSpeed_handle.
Qed.

End Frames.

(** ** Camera easing *)

Section Damping.

Lemma damp_gap (current target : R) :
  damp current target 0.1 - target = 0.9 * (current - target).
Proof. unfold damp. lra. Qed.

Lemma Rabs_damp (current target : R) :
  Rabs (damp current target 0.1 - target) = 0.9 * Rabs (current - target).
Proof.
  rewrite damp_gap, Rabs_mult. f_equal. apply Rabs_pos_eq. lra.
Qed.

(** The camera controls after a frame, while the auto-rotation is off. *)
Lemma controls_frame_manual now w h s :
  autoRotate (cameraControls s) = false ->
  let c := cameraControls s in
  cameraControls (animate now w h s) =
  {| distance := damp (distance c) (targetDistance c) (damping c);
     minDistance := minDistance c; maxDistance := maxDistance c;
     azimuth := damp (azimuth c) (targetAzimuth c) (damping c);
     elevation := damp (elevation c) (targetElevation c) (damping c);
     targetAzimuth := targetAzimuth c;
     targetElevation := targetElevation c;
     targetDistance := targetDistance c; damping := damping c;
     autoRotate := autoRotate c; autoRotateSpeed := autoRotateSpeed c |}.
Proof.
  intros Hrot c. rewrite controls_animate. unfold updateCamera. cbn.
  subst c. rewrite Hrot. reflexivity.
Qed.

Variable s0 : PlanetSystem3D.
Hypothesis damping_s0 : damping (cameraControls s0) = 0.1.
Hypothesis manual_s0 : autoRotate (cameraControls s0) = false.

(** What a run of frames keeps, and what it does to each gap. *)
Lemma frames_gap es :
  Forall isFrame es ->
  let c := cameraControls (run es s0) in
  damping c = 0.1 /\ autoRotate c = false /\
  forall cur tgt, In (cur, tgt) coordinates ->
    tgt c = tgt (cameraControls s0) /\
    gap cur tgt (run es s0) = 0.9 ^ length es * gap cur tgt s0.
Proof.
  unfold run. revert damping_s0 manual_s0. generalize s0 as s.
  induction es as [|e es IH]; intros s Hd Hm Hes; cbn [fold_left length pow].
  - repeat split; auto. lra.
  - inversion Hes as [|? ? He Hes']; subst.
    destruct e; try contradiction. cbn [handle].
    pose proof (controls_frame_manual now width height s Hm) as Hc.
    cbv zeta in Hc.
    destruct (IH (animate now width height s)) as (Hd' & Hm' & Hg); auto.
    + rewrite Hc. exact Hd.
    + rewrite Hc. exact Hm.
    + split; [exact Hd'|]. split; [exact Hm'|].
      intros cur tgt Hin. destruct (Hg cur tgt Hin) as [Ht Hgap].
      rewrite Ht, Hgap. unfold gap. rewrite Hc, Hd.
      destruct Hin as [E|[E|[E|[]]]]; inversion E; subst; cbn;
        rewrite Rabs_damp; split; auto; ring.
Qed.

End Damping.

Lemma run_snoc es e s : run (es ++ [e]) s = handle e (run es s).
Proof. unfold run. now rewrite fold_left_app. Qed.

(** A coordinate whose gap shrinks by 0.9 a frame eases to its target. *)
Lemma eases_of_geometric (cur tgt : CameraControls -> R) (s : PlanetSystem3D) :
  (forall es, Forall isFrame es ->
     tgt (cameraControls (run es s)) = tgt (cameraControls s) /\
     gap cur tgt (run es s) = 0.9 ^ length es * gap cur tgt s) ->
  easesTo cur tgt s.
Proof.
  intros Hrun.
  assert (Hpos : 0 <= gap cur tgt s) by apply Rabs_pos.
  split; [exact Hrun|]. split.
  - intros es e Hes He.
    assert (Hes' : Forall isFrame (es ++ [e])).
    { apply Forall_app. split; [exact Hes|]. now constructor. }
    destruct (Hrun _ Hes) as [_ H1]. destruct (Hrun _ Hes') as [_ H2].
    rewrite run_snoc in H2. rewrite H2, H1.
    rewrite length_app, pow_add. cbn [length pow].
    assert (Hp : 0 <= 0.9 ^ length es) by (apply pow_le; lra).
    assert (Hg : 0 <= 0.9 ^ length es * gap cur tgt s)
      by (apply Rmult_le_pos; assumption).
    split; [|intros Hne]; lra.
  - intros eps Heps.
    destruct (pow_lt_1_zero 0.9) with (y := eps / (gap cur tgt s + 1))
      as [N HN].
    + rewrite Rabs_pos_eq; lra.
    + apply Rdiv_lt_0_compat; lra.
    + exists N. intros es Hes Hlen.
      destruct (Hrun _ Hes) as [_ ->].
      specialize (HN (length es) Hlen).
      rewrite Rabs_pos_eq in HN by (apply pow_le; lra).
      assert (Hp : 0 <= 0.9 ^ length es) by (apply pow_le; lra).
      apply Rle_lt_trans with (0.9 ^ length es * (gap cur tgt s + 1)).
      * nra.
      * apply Rlt_le_trans
          with (eps / (gap cur tgt s + 1) * (gap cur tgt s + 1)).
        -- apply Rmult_lt_compat_r; lra.
        -- right. field. lra.
Qed.

(** No frame moves the target distance, with or without auto-rotation. *)
Lemma frames_distance (s : PlanetSystem3D) (es : list Event) :
  damping (cameraControls s) = 0.1 ->
  Forall isFrame es ->
  damping (cameraControls (run es s)) = 0.1 /\
  targetDistance (cameraControls (run es s))
  = targetDistance (cameraControls s) /\
  gap distance targetDistance (run es s)
  = 0.9 ^ length es * gap distance targetDistance s.
Proof.
  intros Hd Hes. unfold run. revert s Hd.
  induction Hes as [|e es He _ IH]; intros s Hd; cbn [fold_left length pow].
  - repeat split; auto. lra.
  - destruct e; try contradiction. cbn [handle].
    assert (Hc : damping (cameraControls (animate now width height s)) = 0.1
                 /\ targetDistance (cameraControls (animate now width height s))
                    = targetDistance (cameraControls s)
                 /\ distance (cameraControls (animate now width height s))
                    = damp (distance (cameraControls s))
                        (targetDistance (cameraControls s)) 0.1).
    { rewrite controls_animate. unfold updateCamera. cbn.
      destruct (autoRotate (cameraControls s)); cbn; rewrite Hd; auto. }
    destruct Hc as (Hd' & Ht' & Hc').
    destruct (IH _ Hd') as (Hd'' & Ht'' & Hg).
    split; [exact Hd''|]. split; [now rewrite Ht''|].
    rewrite Hg. unfold gap. rewrite Ht', Hc', Rabs_damp. ring.
Qed.

(** C1, amended.  In exact arithmetic, rounding aside: take the engine in
    any state whose damping factor is 0.1 and let it run frames only.  The
    distance eases to its target, with the auto-rotation on or off: the
    target stays what it was, after [n] frames [|current - target|] is
    [0.9 ^ n] times what it was, each frame leaves it no larger and
    strictly smaller unless it is zero, and for every [eps > 0] there is a
    number of frames from which on it stays below [eps].  With the
    auto-rotation off, so that no frame moves their targets, azimuth and
    elevation do the same. *)
Theorem damping_converges_exact (s : PlanetSystem3D) :
  damping (cameraControls s) = 0.1 ->
  easesTo distance targetDistance s /\
  (autoRotate (cameraControls s) = false ->
   easesTo azimuth targetAzimuth s /\ easesTo elevation targetElevation s).
Proof.
  intros Hd. split.
  - apply eases_of_geometric. intros es Hes.
    destruct (frames_distance s es Hd Hes) as (_ & Ht & Hg). now split.
  - intros Hm. split; apply eases_of_geometric; intros es Hes;
      destruct (frames_gap s Hd Hm es Hes) as (_ & _ & H); apply H; cbn; auto.
Qed.

(** The camera zoomed out to 20 when a double-click has put its target
    back at 12 and the auto-rotation on. *)
Lemma damping_converges_exact_witness :
  let s := withControls
             {| distance := 20; minDistance := 3; maxDistance := 40;
                azimuth := 1; elevation := 0.3;
                targetAzimuth := 0; targetElevation := 0.3;
                targetDistance := 12; damping := 0.1;
                autoRotate := true; autoRotateSpeed := 0.15 |}
             initialSystem in
  easesTo distance targetDistance s /\
  (autoRotate (cameraControls s) = false ->
   easesTo azimuth targetAzimuth s /\ easesTo elevation targetElevation s).
Proof. apply damping_converges_exact. reflexivity. Defined.

(** C1, as stated, fails in the arithmetic of the code.  Eased in binary64
    from 12 towards 12 * 1.1, the distance reaches 13.199999999999992
    after 307 frames and the step then returns it unchanged: from there on
    the gap is stuck at [5 * 2^-49], about 8.88e-15, neither strictly
    smaller frame by frame nor ever below a smaller epsilon. *)
Lemma damping_stalls_binary64 :
  let step current := Binary64.damp64 current Binary64.target Binary64.tenth in
  let stalled := Binary64.frames64 307 in
  step stalled = stalled /\
  Binary64.gap64 stalled Binary64.target = Binary64.stall /\
  PrimFloat.ltb PrimFloat.zero Binary64.stall = true /\
  forall n, (307 <= n)%nat ->
    Binary64.frames64 n = stalled /\
    Binary64.gap64 (Binary64.frames64 (S n)) Binary64.target
    = Binary64.gap64 (Binary64.frames64 n) Binary64.target /\
    PrimFloat.ltb (Binary64.gap64 (Binary64.frames64 n) Binary64.target)
      Binary64.stall = false.
Proof.
  intros step stalled.
  assert (Hfix : step stalled = stalled) by (vm_compute; reflexivity).
  assert (Hgap : Binary64.gap64 stalled Binary64.target = Binary64.stall)
    by (vm_compute; reflexivity).
  assert (Hrun : forall n, (307 <= n)%nat -> Binary64.frames64 n = stalled).
  { intros n Hn. induction Hn as [|n Hn IH]; [reflexivity|].
    change (Binary64.frames64 (S n)) with (step (Binary64.frames64 n)).
    now rewrite IH. }
  split; [exact Hfix|]. split; [exact Hgap|].
  split; [vm_compute; reflexivity|].
  intros n Hn. rewrite (Hrun n Hn), (Hrun (S n)) by lia.
  split; [reflexivity|]. split; [reflexivity|].
  rewrite Hgap. vm_compute. reflexivity.
Qed.

(** ** Wheel zoom and the distance range *)

(** Decide the comparisons a goal branches on, then close it by linear
    arithmetic. *)
Ltac by_cases :=
  repeat match goal with
         | |- context [Rlt_dec ?a ?b] => destruct (Rlt_dec a b)
         | |- context [Rle_dec ?a ?b] => destruct (Rle_dec a b)
         | |- context [Req_dec_T ?a ?b] => destruct (Req_dec_T a b)
         | H : context [Rlt_dec ?a ?b] |- _ => destruct (Rlt_dec a b)
         | H : context [Rle_dec ?a ?b] |- _ => destruct (Rle_dec a b)
         end;
  try lra.

Lemma clamp_range lo hi x : lo <= hi -> lo <= clamp lo hi x <= hi.
Proof. intros H. unfold clamp, Rmax, Rmin. by_cases. Qed.

Lemma onWheel_target deltaY s :
  targetDistance (cameraControls (onWheel deltaY s)) =
  clamp (minDistance (cameraControls s)) (maxDistance (cameraControls s))
    (targetDistance (cameraControls s) * wheelFactor deltaY).
Proof.
  cbn. unfold clamp, wheelFactor. do 2 f_equal.
  destruct (Rlt_dec 0 deltaY); lra.
Qed.

(** C2, as stated, fails: a wheel event whose vertical delta is zero (a
    horizontal scroll) zooms in by 0.9, where [(1 + sign(deltaY) * 0.1)]
    is 1 and would leave the target distance at 12. *)
Lemma wheel_sign_zero_counterexample :
  targetDistance (cameraControls (onWheel 0 initialSystem)) = 10.8 /\
  clamp 3 40 (targetDistance (cameraControls initialSystem) * wheelFactorSpec 0)
  = 12 /\
  targetDistance (cameraControls (onWheel 0 initialSystem)) <>
  clamp 3 40 (targetDistance (cameraControls initialSystem) * wheelFactorSpec 0).
Proof.
  rewrite onWheel_target. cbn.
  unfold clamp, wheelFactor, wheelFactorSpec, sign, Rmax, Rmin.
  repeat split; by_cases.
Qed.

(** C2, amended.  With [minDistance = 3] and [maxDistance = 40], whatever
    the prior target distance, a wheel event multiplies it by 1.1 when
    [deltaY > 0] and by 0.9 otherwise (also when [deltaY] is zero), then
    clamps it: the new target distance lies in [3, 40].  The factor is
    [(1 + sign(deltaY) * 0.1)] for every nonzero [deltaY]. *)
Theorem wheel_clamps (s : PlanetSystem3D) (deltaY : R) :
  minDistance (cameraControls s) = 3 ->
  maxDistance (cameraControls s) = 40 ->
  targetDistance (cameraControls (onWheel deltaY s)) =
    clamp 3 40 (targetDistance (cameraControls s) * wheelFactor deltaY) /\
  3 <= targetDistance (cameraControls (onWheel deltaY s)) <= 40 /\
  (deltaY <> 0 -> wheelFactor deltaY = wheelFactorSpec deltaY).
Proof.
  intros Hmin Hmax. rewrite onWheel_target, Hmin, Hmax.
  split; [reflexivity|]. split; [apply clamp_range; lra|].
  intros Hne. unfold wheelFactor, wheelFactorSpec, sign. by_cases.
Qed.

Lemma wheel_clamps_witness :
  targetDistance (cameraControls (onWheel (-120) initialSystem)) =
    clamp 3 40 (targetDistance (cameraControls initialSystem)
                * wheelFactor (-120)) /\
  3 <= targetDistance (cameraControls (onWheel (-120) initialSystem)) <= 40 /\
  (-120 <> 0 -> wheelFactor (-120) = wheelFactorSpec (-120)).
Proof. apply (wheel_clamps initialSystem (-120)); reflexivity. Defined.

(** ** Double-click *)

(** C8.  Whatever events came before, in whatever state, a double-click
    leaves [autoRotate] true and the target distance, azimuth and elevation
    at 12, 0 and 0.3; in particular after a drag (mouse down, move, up),
    which leaves [autoRotate] false. *)
Theorem dblclick_resets (s : PlanetSystem3D) (es : list Event) :
  let after := handle DblClick (run es s) in
  (autoRotate (cameraControls after) = true /\
   targetDistance (cameraControls after) = 12 /\
   targetAzimuth (cameraControls after) = 0 /\
   targetElevation (cameraControls after) = 0.3) /\
  forall x y x' y',
    let drag := es ++ [MouseDown x y; MouseMove x' y'; MouseUp] in
    autoRotate (cameraControls (run drag s)) = false /\
    autoRotate (cameraControls (run (drag ++ [DblClick]) s)) = true.
Proof.
  split; [repeat split|].
  intros x y x' y' drag. split.
  - subst drag. unfold run. rewrite fold_left_app. reflexivity.
  - rewrite run_snoc. reflexivity.
Qed.

(** ** The distance invariant *)

Lemma distanceInvariant_initial : distanceInvariant initialSystem.
Proof. unfold distanceInvariant. cbn. repeat split; lra. Qed.

Lemma distanceInvariant_handle e s :
  distanceInvariant s -> distanceInvariant (handle e s).
Proof.
  unfold distanceInvariant. intros (Hmin & Hmax & Hd & Hc & Ht).
  destruct e; cbn [handle].
  - cbn. repeat split; tauto.
  - unfold onMouseMove. destruct (negb _); cbn; repeat split; tauto.
  - cbn. repeat split; tauto.
  - cbn. repeat split; tauto.
  - pose proof (clamp_range 3 40
                  (targetDistance (cameraControls s) * wheelFactor deltaY)).
    rewrite onWheel_target, Hmin, Hmax. cbn. repeat split; try tauto; lra.
  - cbn. repeat split; try tauto; lra.
  - rewrite controls_animate. unfold updateCamera. cbn.
    destruct (autoRotate (cameraControls s)); cbn; rewrite Hd; unfold damp;
      repeat split; try tauto; lra.
  - cbn. repeat split; tauto.
Qed.

(** C10.  In every state the engine can reach from the constructor's state
    (frames, wheel and double-click events, and the mouse and planet events
    as well, in any order), the current and the target camera distance both
    lie in [3, 40]. *)
Theorem distance_in_range (s : PlanetSystem3D) :
  reachable s ->
  3 <= distance (cameraControls s) <= 40 /\
  3 <= targetDistance (cameraControls s) <= 40.
Proof.
  intros H.
  assert (Hinv : distanceInvariant s).
  { induction H; [apply distanceInvariant_initial|].
    now apply distanceInvariant_handle. }
  unfold distanceInvariant in Hinv. tauto.
Qed.

(** Zooming out as far as it goes, then a frame. *)
Lemma distance_in_range_witness :
  let s := run (repeat (Wheel 1) 20 ++ [Frame 16 800 600]) initialSystem in
  3 <= distance (cameraControls s) <= 40 /\
  3 <= targetDistance (cameraControls s) <= 40.
Proof.
  apply distance_in_range.
  unfold run. cbn [repeat app fold_left].
  repeat apply reachable_step. apply reachable_initial.
Defined.

(** ** Colour tables *)

(** C7, as stated, fails at the thresholds: the bounds are not inclusive.
    A star at exactly 6000 K gets the colour of the row below, where a
    table with inclusive lower bounds gives it white. *)
Lemma colour_threshold_counterexample :
  getStarColor (Some 6000) = [1.0; 1.0; 0.7] /\
  lookupInclusive starTable (Some 6000) = [1.0; 1.0; 1.0] /\
  getStarColor (Some 6000) <> lookupInclusive starTable (Some 6000).
Proof.
  unfold getStarColor, lookupInclusive, starTable. cbn.
  destruct (Rlt_dec 6000 6000) as [H|_]; [lra|].
  destruct (Rlt_dec 5000 6000) as [_|H]; [|lra].
  destruct (Rle_dec 6000 6000) as [_|H]; [|lra].
  repeat split. intros H. inversion H. lra.
Qed.

Ltac colour :=
  cbv [getStarColor getPlanetColor jsGt];
  repeat match goal with
         | |- context [Rlt_dec ?a ?b] =>
           destruct (Rlt_dec a b); try lra
         end;
  repeat (f_equal; try lra).

(** C7, amended.  [getStarColor] and [getPlanetColor] are the two step
    tables read top down, first match wins, a row matching a temperature
    strictly above its threshold (a temperature equal to a threshold
    falls to the next row; an absent one to the last).  So
    starColor(6500) = (1,1,1), starColor(4500) = (1,0.6,0.3),
    starColor(2500) = (0.8,0.2,0.2), planetColor(1200) = (1,0.4,0.4) and
    planetColor(250) = (0.6,0.6,1.0). *)
Theorem colour_tables :
  (forall teff, getStarColor teff = lookupExclusive starTable teff) /\
  (forall eqTemp, getPlanetColor eqTemp = lookupExclusive planetTable eqTemp) /\
  (getStarColor (Some 6500) = [1; 1; 1] /\
   getStarColor (Some 4500) = [1; 0.6; 0.3] /\
   getStarColor (Some 2500) = [0.8; 0.2; 0.2] /\
   getPlanetColor (Some 1200) = [1; 0.4; 0.4] /\
   getPlanetColor (Some 250) = [0.6; 0.6; 1.0]) /\
  (getStarColor (Some 6000) = [1; 1; 0.7] /\
   getStarColor (Some 5000) = [1; 0.6; 0.3] /\
   getStarColor (Some 4000) = [1; 0.3; 0.3] /\
   getStarColor (Some 3000) = [0.8; 0.2; 0.2] /\
   getPlanetColor (Some 1000) = [1; 0.6; 0.3] /\
   getPlanetColor (Some 500) = [0.4; 0.6; 1] /\
   getPlanetColor (Some 273) = [0.6; 0.6; 1] /\
   getPlanetColor (Some 200) = [0.7; 0.7; 0.7]) /\
  (getStarColor None = [0.8; 0.2; 0.2] /\
   getPlanetColor None = [0.7; 0.7; 0.7]).
Proof.
  split; [reflexivity|]. split; [reflexivity|].
  repeat split; colour.
Qed.

(** ** The sphere mesh *)

Section Sphere.

Context {A B : Type}.

Lemma flat_map_length_const (k : nat) (f : A -> list B) (l : list A) :
  (forall x, length (f x) = k) ->
  length (flat_map f l) = (k * length l)%nat.
Proof.
  intros Hf. induction l as [|x l IH]; cbn [flat_map length].
  - lia.
  - rewrite length_app, Hf, IH. lia.
Qed.

End Sphere.

Lemma createSphere_positions radius segments rings :
  length (positions (createSphere radius segments rings)) =
  (3 * ((rings + 1) * (segments + 1)))%nat.
Proof.
  cbn [createSphere positions].
  rewrite flat_map_length_const with (k := (3 * (segments + 1))%nat).
  - rewrite length_seq. lia.
  - intros i. rewrite flat_map_length_const with (k := 3%nat).
    + rewrite length_seq. lia.
    + reflexivity.
Qed.

Lemma createSphere_vertexCount radius segments rings :
  vertexCount (createSphere radius segments rings) =
  ((rings + 1) * (segments + 1))%nat.
Proof.
  unfold vertexCount. rewrite createSphere_positions.
  rewrite Nat.mul_comm. apply Nat.div_mul. discriminate.
Qed.

(** C6.  For positive [segments] and [rings], [createSphere] emits
    [(rings + 1) * (segments + 1)] vertices (three position and three
    normal components and two texture coordinates each) and
    [6 * rings * segments] indices, that is [2 * rings * segments]
    triangles, and every index is below the number of vertices.  At
    [segments = 4], [rings = 2] that is 15 vertices, 48 indices and 16
    triangles. *)
Theorem createSphere_counts (radius : R) (segments rings : nat) :
  (0 < segments)%nat -> (0 < rings)%nat ->
  let m := createSphere radius segments rings in
  vertexCount m = ((rings + 1) * (segments + 1))%nat /\
  length (positions m) = (3 * vertexCount m)%nat /\
  length (normals m) = (3 * vertexCount m)%nat /\
  length (uvs m) = (2 * vertexCount m)%nat /\
  length (indices m) = (6 * rings * segments)%nat /\
  (length (indices m) / 3 = 2 * rings * segments)%nat /\
  Forall (fun i => (i < vertexCount m)%nat) (indices m).
Proof.
  intros _ _ m. subst m. rewrite createSphere_vertexCount.
  split; [reflexivity|]. split; [apply createSphere_positions|].
  assert (Hidx : length (indices (createSphere radius segments rings)) =
                 (6 * rings * segments)%nat).
  { cbn [createSphere indices].
    rewrite flat_map_length_const with (k := (6 * segments)%nat).
    - rewrite length_seq. lia.
    - intros i. rewrite flat_map_length_const with (k := 6%nat).
      + rewrite length_seq. lia.
      + reflexivity. }
  repeat split.
  - cbn [createSphere normals].
    rewrite flat_map_length_const with (k := (3 * (segments + 1))%nat).
    + rewrite length_seq. lia.
    + intros i. rewrite flat_map_length_const with (k := 3%nat).
      * rewrite length_seq. lia.
      * reflexivity.
  - cbn [createSphere uvs].
    rewrite flat_map_length_const with (k := (2 * (segments + 1))%nat).
    + rewrite length_seq. lia.
    + intros i. rewrite flat_map_length_const with (k := 2%nat).
      * rewrite length_seq. lia.
      * reflexivity.
  - exact Hidx.
  - rewrite Hidx.
    replace (6 * rings * segments)%nat with (2 * rings * segments * 3)%nat
      by lia.
    apply Nat.div_mul. discriminate.
  - cbn [createSphere indices].
    apply Forall_flat_map, Forall_forall. intros i Hi.
    apply Forall_flat_map, Forall_forall. intros j Hj.
    apply in_seq in Hi. apply in_seq in Hj.
    repeat constructor; nia.
Qed.

Lemma createSphere_counts_witness :
  let m := createSphere 1 4 2 in
  vertexCount m = 15%nat /\
  length (positions m) = (3 * vertexCount m)%nat /\
  length (normals m) = (3 * vertexCount m)%nat /\
  length (uvs m) = (2 * vertexCount m)%nat /\
  length (indices m) = 48%nat /\
  (length (indices m) / 3 = 16)%nat /\
  Forall (fun i => (i < vertexCount m)%nat) (indices m).
Proof. apply (createSphere_counts 1 4 2); lia. Defined.

(** ** Buffers *)

Lemma length_store i v out : length (store i v out) = length out.
Proof.
  revert i. induction out as [|x out IH]; intros [|i]; cbn; auto.
Qed.

Lemma length_assign ws out : length (assign out ws) = length out.
Proof.
  unfold assign. revert out.
  induction ws as [|w ws IH]; intros out; cbn [fold_left]; [reflexivity|].
  now rewrite IH, length_store.
Qed.

(** Name the entries of a buffer whose length is known. *)
Ltac explode out H :=
  repeat (destruct out as [|? out]; [discriminate H|]);
  destruct out; [clear H|discriminate H].

(** Run the assignments and reads of a goal without touching its
    arithmetic. *)
Ltac run_buffers :=
  cbv [mat4.identity mat4.perspective mat4.lookAt mat4.translate
       mat4.rotateY mat4.scale mat3.normalFromMat4
       assign wr fold_left store fst snd get nth
       transform ndcDepth onAxis map seq Nat.add Nat.mul
       row vec3_of dot cross sub scale3 zAxis xAxis yAxis].

(** ** Projection *)

(** C4.  For every field of view, [aspect > 0], [near > 0] and
    [far > near], the matrix [perspective] writes into a 16-entry buffer
    sends the point of the view axis at depth [near] to depth -1 and the
    one at depth [far] to depth +1, after perspective division. *)
Theorem perspective_depth (out : buffer) (fovy aspect near far : R) :
  length out = 16%nat ->
  0 < aspect -> 0 < near -> near < far ->
  let proj := mat4.perspective out fovy aspect near far in
  ndcDepth proj (onAxis near) = -1 /\
  ndcDepth proj (onAxis far) = 1.
Proof.
  intros Hlen Haspect Hnear Hfar proj. subst proj.
  explode out Hlen. run_buffers. split; field; lra.
Qed.

(** The engine's own projection: 80 degrees, a 4:3 canvas, near 0.1 and
    far 500. *)
Lemma perspective_depth_witness :
  let proj := mat4.perspective mat4.create (80 * PI / 180) (800 / 600)
                0.1 500 in
  ndcDepth proj (onAxis 0.1) = -1 /\ ndcDepth proj (onAxis 500) = 1.
Proof.
  apply (perspective_depth mat4.create (80 * PI / 180) (800 / 600) 0.1 500);
    [reflexivity | lra | lra | lra].
Defined.

(** ** The view matrix *)

Section LookAt.

Lemma lookAt_rows (out eye center up : buffer) :
  length out = 16%nat ->
  let view := mat4.lookAt out eye center up in
  row view 0 = xAxis eye center up /\
  row view 1 = yAxis eye center up /\
  row view 2 = zAxis eye center.
Proof.
  intros Hlen view. subst view. explode out Hlen.
  unfold yAxis, xAxis, zAxis, mat4.lookAt. cbv zeta.
  unfold vec3_of, sub, dot, scale3, cross.
  match goal with
  | |- context [Req_dec_T ?a 0] => destruct (Req_dec_T a 0)
  end; repeat split; reflexivity.
Qed.

Lemma sum_squares_pos (v : vec3) : v <> (0, 0, 0) -> 0 < dot v v.
Proof.
  destruct v as [[a b] c]. cbn. intros H.
  destruct (Req_dec_T a 0) as [->|Ha]; [|nra].
  destruct (Req_dec_T b 0) as [->|Hb]; [|nra].
  destruct (Req_dec_T c 0) as [->|Hc]; [|nra].
  now contradiction H.
Qed.

Lemma dot_scale3 (k : R) (u v : vec3) :
  dot (scale3 k u) (scale3 k v) = k * k * dot u v.
Proof. destruct u as [[? ?] ?], v as [[? ?] ?]. cbn. ring. Qed.

Lemma dot_scale3_l (k : R) (u v : vec3) :
  dot (scale3 k u) v = k * dot u v.
Proof. destruct u as [[? ?] ?], v as [[? ?] ?]. cbn. ring. Qed.

Lemma cross_scale3_r (k : R) (u v : vec3) :
  cross u (scale3 k v) = scale3 k (cross u v).
Proof. destruct u as [[? ?] ?], v as [[? ?] ?]. cbn. f_equal; [f_equal|]; ring. Qed.

Lemma dot_cross_r (u v : vec3) : dot (cross u v) v = 0.
Proof. destruct u as [[? ?] ?], v as [[? ?] ?]. cbn. ring. Qed.

Lemma dot_cross_l (u v : vec3) : dot (cross u v) u = 0.
Proof. destruct u as [[? ?] ?], v as [[? ?] ?]. cbn. ring. Qed.

Lemma dot_comm (u v : vec3) : dot u v = dot v u.
Proof. destruct u as [[? ?] ?], v as [[? ?] ?]. cbn. ring. Qed.

(** Lagrange's identity. *)
Lemma dot_cross_cross (u v : vec3) :
  dot (cross u v) (cross u v) = dot u u * dot v v - dot u v * dot u v.
Proof. destruct u as [[? ?] ?], v as [[? ?] ?]. cbn. ring. Qed.

Lemma normalize_unit (v : vec3) :
  0 < dot v v ->
  let n := scale3 (1 / sqrt (dot v v)) v in dot n n = 1.
Proof.
  intros Hpos n. subst n. rewrite dot_scale3.
  pose proof (sqrt_lt_R0 _ Hpos) as Hq.
  pose proof (sqrt_sqrt (dot v v) (Rlt_le _ _ Hpos)) as Hqq.
  rewrite <- Hqq at 3. field. lra.
Qed.

End LookAt.

(** C5.  For [eye] distinct from [target] and [up] not parallel to the
    direction from the eye to the target (their cross product is not
    zero), the three basis rows of the matrix [lookAt] writes into a
    16-entry buffer each have length 1 and are pairwise perpendicular. *)
Theorem lookAt_orthonormal (out eye center up : buffer) :
  length out = 16%nat ->
  vec3_of eye <> vec3_of center ->
  cross (vec3_of up) (sub (vec3_of center) (vec3_of eye)) <> (0, 0, 0) ->
  let view := mat4.lookAt out eye center up in
  (dot (row view 0) (row view 0) = 1 /\
   dot (row view 1) (row view 1) = 1 /\
   dot (row view 2) (row view 2) = 1) /\
  (dot (row view 0) (row view 1) = 0 /\
   dot (row view 0) (row view 2) = 0 /\
   dot (row view 1) (row view 2) = 0).
Proof.
  intros Hlen Heye Hup view. subst view.
  destruct (lookAt_rows out eye center up Hlen) as (-> & -> & ->).
  clear Hlen out.
  set (d := sub (vec3_of eye) (vec3_of center)).
  assert (Hd : 0 < dot d d).
  { apply sum_squares_pos. intros H. apply Heye. subst d.
    destruct (vec3_of eye) as [[? ?] ?], (vec3_of center) as [[? ?] ?].
    cbn in H. inversion H. f_equal; [f_equal|]; lra. }
  assert (Hz : dot (zAxis eye center) (zAxis eye center) = 1)
    by (apply normalize_unit; exact Hd).
  set (c := cross (vec3_of up) (zAxis eye center)).
  assert (Hc : 0 < dot c c).
  { subst c. unfold zAxis. fold d. rewrite cross_scale3_r, dot_scale3.
    assert (Hq : 0 < sqrt (dot d d)) by (apply sqrt_lt_R0; exact Hd).
    assert (Hk : 0 < 1 / sqrt (dot d d)) by (apply Rdiv_lt_0_compat; lra).
    assert (Hx : 0 < dot (cross (vec3_of up) d) (cross (vec3_of up) d)).
    { apply sum_squares_pos. intros H. apply Hup. subst d.
      destruct (vec3_of up) as [[? ?] ?], (vec3_of eye) as [[? ?] ?],
               (vec3_of center) as [[? ?] ?].
      cbn in H |- *. inversion H. f_equal; [f_equal|]; lra. }
    apply Rmult_lt_0_compat; [apply Rmult_lt_0_compat|]; assumption. }
  assert (Hx : xAxis eye center up = scale3 (1 / sqrt (dot c c)) c).
  { unfold xAxis. fold c. cbv zeta.
    destruct (Req_dec_T (sqrt (dot c c)) 0) as [H|_]; [|reflexivity].
    pose proof (sqrt_lt_R0 _ Hc). lra. }
  assert (Hxx : dot (xAxis eye center up) (xAxis eye center up) = 1)
    by (rewrite Hx; apply normalize_unit; exact Hc).
  assert (Hxz : dot (xAxis eye center up) (zAxis eye center) = 0).
  { rewrite Hx, dot_scale3_l. subst c. rewrite dot_cross_r. ring. }
  unfold yAxis. repeat split.
  - exact Hxx.
  - rewrite dot_cross_cross, Hz, Hxx, (dot_comm (zAxis eye center)), Hxz. ring.
  - exact Hz.
  - rewrite dot_comm. apply dot_cross_r.
  - exact Hxz.
  - apply dot_cross_l.
Qed.

(** The engine's first camera: eye (8, 5, 8), target the origin, up the
    y axis. *)
Lemma lookAt_orthonormal_witness :
  let view := mat4.lookAt mat4.create [8; 5; 8] [0; 0; 0] [0; 1; 0] in
  (dot (row view 0) (row view 0) = 1 /\
   dot (row view 1) (row view 1) = 1 /\
   dot (row view 2) (row view 2) = 1) /\
  (dot (row view 0) (row view 1) = 0 /\
   dot (row view 0) (row view 2) = 0 /\
   dot (row view 1) (row view 2) = 0).
Proof.
  apply (lookAt_orthonormal mat4.create [8; 5; 8] [0; 0; 0] [0; 1; 0]).
  - reflexivity.
  - intros H. cbv [vec3_of get nth] in H. inversion H. lra.
  - intros H. cbv [vec3_of get nth sub cross] in H. inversion H. lra.
Defined.

(** ** The planet's orbit *)

Lemma jsOr_nonzero (x : jsnum) (d : R) : d <> 0 -> jsOr x d <> 0.
Proof.
  intros Hd. unfold jsOr. destruct x as [v|]; [|exact Hd].
  now destruct (Req_dec_T v 0).
Qed.

Lemma modelMatrix_drawStar planet s :
  length (modelMatrix (drawStar planet s)) = length (modelMatrix s).
Proof.
  destruct planet; [|reflexivity].
  cbn [drawStar updateNormalMatrix withNormalMatrix withModelMatrix
       modelMatrix].
  unfold mat4.rotateY, mat4.scale, mat4.identity.
  now rewrite !length_assign.
Qed.

Lemma modelMatrix_drawPlanet planet s :
  length (modelMatrix (drawPlanet planet s)) = length (modelMatrix s).
Proof.
  destruct planet; [|reflexivity].
  cbn [drawPlanet drawOrbit placePlanet updateNormalMatrix withNormalMatrix
       withModelMatrix modelMatrix].
  unfold mat4.rotateY, mat4.scale, mat4.translate, mat4.identity.
  now rewrite !length_assign.
Qed.

Lemma modelMatrix_handle e s :
  length (modelMatrix (handle e s)) = length (modelMatrix s).
Proof.
  destruct e; try reflexivity.
  - cbn. unfold onMouseMove. now destruct (negb _).
  - cbn. unfold animate.
    destruct (currentPlanet _); [|reflexivity].
    now rewrite modelMatrix_drawPlanet, modelMatrix_drawStar.
Qed.

Lemma modelMatrix_reachable s :
  reachable s -> length (modelMatrix s) = 16%nat.
Proof.
  induction 1; [reflexivity|]. now rewrite modelMatrix_handle.
Qed.

(** The planet is drawn at [planetPosition]: the translation column of its
    model matrix. *)
Lemma placePlanet_translation planet s :
  length (modelMatrix s) = 16%nat ->
  map (get (modelMatrix (placePlanet planet s))) [12; 13; 14]%nat =
  planetPosition s planet.
Proof.
  intros Hlen. cbn [map].
  cbn [placePlanet updateNormalMatrix withNormalMatrix withModelMatrix
       modelMatrix].
  unfold planetPosition.
  set (px := cos _ * _). set (pz := sin _ * _).
  remember (modelMatrix s) as model eqn:E. clear E.
  explode model Hlen. run_buffers.
  repeat f_equal; ring.
Qed.

(** C3.  In every state the engine can reach, for every planet record: the
    period the orbit uses is the record's, or 1 when that is zero or
    absent, and is never zero; the orbital angle is
    [time * 10 / period]; and when the elapsed time is 0 the planet's
    position, and the translation of the model matrix it is drawn with,
    is [(orbitRadius, 0, 0)]. *)
Theorem planet_orbit (s : PlanetSystem3D) (planet : PlanetRecord) :
  reachable s ->
  let period := jsOr (period_days planet) 1 in
  (period <> 0 /\
   (forall p, period_days planet = Some p -> p <> 0 -> period = p) /\
   (period_days planet = None \/ period_days planet = Some 0 -> period = 1)) /\
  orbitAngle s planet = time s * 10 / period /\
  (time s = 0 ->
   planetPosition s planet = [orbitRadius planet; 0; 0] /\
   let m := modelMatrix (placePlanet planet s) in
   [get m 12; get m 13; get m 14] = [orbitRadius planet; 0; 0]).
Proof.
  intros Hs period.
  assert (Hpos : time s = 0 ->
                 planetPosition s planet = [orbitRadius planet; 0; 0]).
  { intros Ht. unfold planetPosition, orbitAngle. rewrite Ht.
    replace (0 * orbitSpeed s / jsOr (period_days planet) 1) with 0
      by (unfold Rdiv; ring).
    rewrite cos_0, sin_0. repeat f_equal; ring. }
  repeat split.
  - apply jsOr_nonzero. lra.
  - intros p Hp Hne. subst period. rewrite Hp. cbn.
    now destruct (Req_dec_T p 0).
  - intros [Hp|Hp]; subst period; rewrite Hp; cbn; [reflexivity|].
    destruct (Req_dec_T 0 0) as [_|H]; [reflexivity|now contradiction H].
  - unfold orbitAngle. now rewrite (orbitSpeed_reachable s Hs).
  - now apply Hpos.
  - cbv zeta.
    change (map (get (modelMatrix (placePlanet planet s))) [12; 13; 14]%nat
            = [orbitRadius planet; 0; 0]).
    rewrite placePlanet_translation by now apply modelMatrix_reachable.
    now apply Hpos.
Qed.

(** The fallback planet, before the first frame. *)
Lemma planet_orbit_witness :
  let s := initialSystem in
  let planet := fallbackPlanet in
  let period := jsOr (period_days planet) 1 in
  (period <> 0 /\
   (forall p, period_days planet = Some p -> p <> 0 -> period = p) /\
   (period_days planet = None \/ period_days planet = Some 0 -> period = 1)) /\
  orbitAngle s planet = time s * 10 / period /\
  (time s = 0 ->
   planetPosition s planet = [orbitRadius planet; 0; 0] /\
   let m := modelMatrix (placePlanet planet s) in
   [get m 12; get m 13; get m 14] = [orbitRadius planet; 0; 0]).
Proof.
  apply (planet_orbit initialSystem fallbackPlanet reachable_initial).
Defined.

(** ** The normal matrix *)

(** The two outcomes of [normalFromMat4]: [null] and an untouched buffer
    when the determinant of the upper-left block is zero; otherwise the
    buffer, holding the inverse of that block. *)
Lemma normalFromMat4_cases (out a : buffer) :
  (det3 a = 0 /\ mat3.normalFromMat4 out a = (None, out)) \/
  (det3 a <> 0 /\
   exists n, mat3.normalFromMat4 out a = (Some n, n) /\
             (length out = 9%nat -> isInverse3 n a)).
Proof.
  unfold mat3.normalFromMat4. cbv zeta.
  match goal with
  | |- context [Req_dec_T ?d 0] =>
    assert (Hdet : d = det3 a) by (unfold det3; ring);
    destruct (Req_dec_T d 0) as [Hz|Hnz]
  end.
  - left. split; [now rewrite <- Hdet|reflexivity].
  - right. split; [now rewrite <- Hdet|].
    eexists. split; [reflexivity|].
    intros Hlen. explode out Hlen. intros i j Hi Hj.
    destruct i as [|[|[|i]]]; [| | |lia];
      (destruct j as [|[|[|j]]]; [| | |lia]);
      run_buffers; unfold delta; cbn [Nat.eqb]; field; exact Hnz.
Qed.

(** The part of C9 that holds: [normalFromMat4] returns [null] exactly
    when the determinant of the upper-left 3x3 block is zero, and then
    leaves the output buffer as it was. *)
Lemma normalFromMat4_null_iff (out a : buffer) :
  (fst (mat3.normalFromMat4 out a) = None <-> det3 a = 0) /\
  (det3 a = 0 -> snd (mat3.normalFromMat4 out a) = out).
Proof.
  destruct (normalFromMat4_cases out a) as [[Hz ->]|[Hnz (n & -> & _)]]; cbn.
  - tauto.
  - split; [split; [discriminate|contradiction]|contradiction].
Qed.

(** What it writes otherwise is the inverse of the block. *)
Lemma normalFromMat4_inverse (out a : buffer) :
  length out = 9%nat -> det3 a <> 0 ->
  fst (mat3.normalFromMat4 out a) = Some (snd (mat3.normalFromMat4 out a)) /\
  isInverse3 (snd (mat3.normalFromMat4 out a)) a.
Proof.
  intros Hlen Hnz.
  destruct (normalFromMat4_cases out a) as [[Hz _]|[_ (n & -> & Hinv)]];
    [contradiction|].
  cbn. split; [reflexivity|]. now apply Hinv.
Qed.

(** C9 fails on a model matrix with a shear.  Its upper-left block has
    determinant 1; [normalFromMat4] writes the inverse of the block,
    (1, -1, 0, 0, 1, 0, 0, 0, 1), which is not its inverse-transpose,
    (1, 0, 0, -1, 1, 0, 0, 0, 1). *)
Theorem normalFromMat4_shear :
  let n := [1; -1; 0; 0; 1; 0; 0; 0; 1] in
  det3 shear = 1 /\
  mat3.normalFromMat4 mat3.create shear = (Some n, n) /\
  isInverse3 n shear /\
  ~ isInverseTranspose3 n shear /\
  isInverseTranspose3 [1; 0; 0; -1; 1; 0; 0; 0; 1] shear.
Proof.
  intros n.
  assert (Hdet : det3 shear = 1) by (cbv [det3 shear get nth]; ring).
  assert (Hn : mat3.normalFromMat4 mat3.create shear = (Some n, n)).
  { destruct (normalFromMat4_cases mat3.create shear)
      as [[Hz _]|[_ (m & Hm & _)]]; [lra|].
    rewrite Hm. revert Hm. unfold mat3.normalFromMat4. cbv zeta.
    match goal with
    | |- context [Req_dec_T ?d 0] => destruct (Req_dec_T d 0)
    end; [discriminate|].
    intros Hm. injection Hm as <-. subst n.
    cbv [mat3.create repeat shear assign wr fold_left store fst snd get nth].
    do 2 f_equal; repeat (f_equal; try (field; lra)). }
  split; [exact Hdet|]. split; [exact Hn|]. split; [|split].
  - destruct (normalFromMat4_inverse mat3.create shear) as [_ H];
      [reflexivity|lra|]. now rewrite Hn in H.
  - intros H. specialize (H 0%nat 1%nat). subst n.
    cbv [shear get nth delta Nat.eqb Nat.mul Nat.add] in H.
    assert (0 < 3)%nat by lia. assert (1 < 3)%nat by lia.
    specialize (H ltac:(assumption) ltac:(assumption)). lra.
  - intros i j Hi Hj.
    destruct i as [|[|[|i]]]; [| | |lia];
      (destruct j as [|[|[|j]]]; [| | |lia]);
      cbv [shear get nth delta Nat.eqb Nat.mul Nat.add]; ring.
Qed.

(** * Further properties *)

(** Two buffers of the same length, entry by entry. *)
Ltac entries :=
  repeat (apply (f_equal2 cons); [try ring|]); try reflexivity.

(** ** How the matrix operations compose *)

(** The identity matrix leaves every vector where it is. *)
Theorem identity_transform (out : buffer) (x y z w : R) :
  length out = 16%nat ->
  transform (mat4.identity out) [x; y; z; w] = [x; y; z; w].
Proof.
  intros Hlen. explode out Hlen. run_buffers. entries.
Qed.

Lemma identity_transform_witness :
  transform (mat4.identity mat4.create) [1; 2; 3; 1] = [1; 2; 3; 1].
Proof. apply (identity_transform mat4.create 1 2 3 1). reflexivity. Defined.

(** Called in place, [translate] multiplies on the right by a translation:
    the new matrix moves a point by [v] (scaled by its [w]) and then does
    what the old one did. *)
Theorem translate_transform (m v : buffer) (x y z w : R) :
  length m = 16%nat ->
  transform (mat4.translate m m v) [x; y; z; w] =
  transform m [x + get v 0 * w; y + get v 1 * w; z + get v 2 * w; w].
Proof.
  intros Hlen. explode m Hlen. run_buffers. entries.
Qed.

Lemma translate_transform_witness :
  transform (mat4.translate shear shear [5; 6; 7]) [1; 2; 3; 1] =
  transform shear [1 + get [5; 6; 7] 0 * 1; 2 + get [5; 6; 7] 1 * 1;
                   3 + get [5; 6; 7] 2 * 1; 1].
Proof. apply (translate_transform shear [5; 6; 7] 1 2 3 1). reflexivity. Defined.

(** Called in place, [scale] multiplies on the right by a scaling. *)
Theorem scale_transform (m v : buffer) (x y z w : R) :
  length m = 16%nat ->
  transform (mat4.scale m m v) [x; y; z; w] =
  transform m [get v 0 * x; get v 1 * y; get v 2 * z; w].
Proof.
  intros Hlen. explode m Hlen. run_buffers. entries.
Qed.

Lemma scale_transform_witness :
  transform (mat4.scale shear shear [2; 3; 4]) [1; 2; 3; 1] =
  transform shear [get [2; 3; 4] 0 * 1; get [2; 3; 4] 1 * 2;
                   get [2; 3; 4] 2 * 3; 1].
Proof. apply (scale_transform shear [2; 3; 4] 1 2 3 1). reflexivity. Defined.

(** Called in place, [rotateY] multiplies on the right by the rotation
    about the y axis that takes z towards x. *)
Theorem rotateY_transform (m : buffer) (rad x y z w : R) :
  length m = 16%nat ->
  transform (mat4.rotateY m m rad) [x; y; z; w] =
  transform m [cos rad * x + sin rad * z; y;
               - sin rad * x + cos rad * z; w].
Proof.
  intros Hlen. explode m Hlen. run_buffers. entries.
Qed.

Lemma rotateY_transform_witness :
  transform (mat4.rotateY shear shear 1) [1; 2; 3; 1] =
  transform shear [cos 1 * 1 + sin 1 * 3; 2; - sin 1 * 1 + cos 1 * 3; 1].
Proof. apply (rotateY_transform shear 1 1 2 3 1). reflexivity. Defined.

(** Both draw calls pass [rotateY] the angle [time * 0]: whatever the
    time, the matrix comes back as it was. *)
Theorem rotateY_zero (m : buffer) (t : R) :
  length m = 16%nat -> mat4.rotateY m m (t * 0) = m.
Proof.
  intros Hlen. explode m Hlen. unfold mat4.rotateY.
  rewrite Rmult_0_r, sin_0, cos_0. run_buffers. entries.
Qed.

Lemma rotateY_zero_witness : mat4.rotateY shear shear (42 * 0) = shear.
Proof. apply (rotateY_zero shear 42). reflexivity. Defined.

(** ** The view and projection matrices *)

(** The three rows of the view matrix as [transform] uses them: the first
    three entries of the product are the dot products with the axes, plus
    the translation. *)
Lemma lookAt_transform (out eye center up : buffer) (px py pz : R) :
  length out = 16%nat ->
  let p := sub (px, py, pz) (vec3_of eye) in
  transform (mat4.lookAt out eye center up) [px; py; pz; 1] =
  [dot (xAxis eye center up) p; dot (yAxis eye center up) p;
   dot (zAxis eye center) p; 1].
Proof.
  intros Hlen p. subst p. explode out Hlen.
  unfold yAxis, xAxis, zAxis, mat4.lookAt. cbv zeta.
  unfold vec3_of, sub, dot, scale3, cross.
  match goal with
  | |- context [Req_dec_T ?a 0] => destruct (Req_dec_T a 0)
  end; run_buffers; entries.
Qed.

(** The view matrix puts the eye at the origin: for an eye away from the
    target, whatever the up vector, parallel to the view direction
    included. *)
Theorem lookAt_eye (out eye center up : buffer) :
  length out = 16%nat ->
  vec3_of eye <> vec3_of center ->
  transform (mat4.lookAt out eye center up)
    [get eye 0; get eye 1; get eye 2; 1] = [0; 0; 0; 1].
Proof.
  intros Hlen _. rewrite lookAt_transform by exact Hlen.
  unfold vec3_of, sub.
  destruct (xAxis eye center up) as [[? ?] ?],
           (yAxis eye center up) as [[? ?] ?],
           (zAxis eye center) as [[? ?] ?].
  cbn [dot]. entries.
Qed.

Lemma lookAt_eye_witness :
  transform (mat4.lookAt mat4.create [8; 5; 8] [0; 0; 0] [0; 1; 0])
    [get [8; 5; 8] 0; get [8; 5; 8] 1; get [8; 5; 8] 2; 1] = [0; 0; 0; 1].
Proof.
  apply (lookAt_eye mat4.create [8; 5; 8] [0; 0; 0] [0; 1; 0]).
  - reflexivity.
  - intros H. cbv [vec3_of get nth] in H. inversion H. lra.
Defined.

(** The camera looks at its target down the negative z axis: for an eye
    away from the target, the view matrix puts the target on that axis, as
    far from the origin as the target is from the eye. *)
Theorem lookAt_target (out eye center up : buffer) :
  length out = 16%nat ->
  vec3_of eye <> vec3_of center ->
  let d := sub (vec3_of eye) (vec3_of center) in
  transform (mat4.lookAt out eye center up)
    [get center 0; get center 1; get center 2; 1] =
  [0; 0; - sqrt (dot d d); 1].
Proof.
  intros Hlen Heye d. rewrite lookAt_transform by exact Hlen.
  change (get center 0, get center 1, get center 2) with (vec3_of center).
  assert (Hd : 0 < dot d d).
  { apply sum_squares_pos. intros H. apply Heye. subst d.
    destruct (vec3_of eye) as [[? ?] ?], (vec3_of center) as [[? ?] ?].
    cbn in H. inversion H. f_equal; [f_equal|]; lra. }
  pose proof (sqrt_lt_R0 _ Hd) as Hq.
  pose proof (sqrt_sqrt _ (Rlt_le _ _ Hd)) as Hqq.
  assert (Hneg : forall v, dot v (sub (vec3_of center) (vec3_of eye))
                           = - dot v d).
  { intros [[? ?] ?]. subst d.
    destruct (vec3_of eye) as [[? ?] ?], (vec3_of center) as [[? ?] ?].
    cbn. ring. }
  assert (Hz : dot (zAxis eye center) d = sqrt (dot d d)).
  { unfold zAxis. fold d. rewrite dot_scale3_l.
    rewrite <- Hqq at 2. field. lra. }
  assert (Hc : forall u, dot (cross u (zAxis eye center)) d = 0).
  { intros u. unfold zAxis. fold d.
    rewrite cross_scale3_r, dot_scale3_l, dot_cross_r. ring. }
  assert (Hx : dot (xAxis eye center up) d = 0).
  { unfold xAxis. cbv zeta.
    match goal with
    | |- context [Req_dec_T ?a 0] => destruct (Req_dec_T a 0)
    end.
    - destruct d as [[? ?] ?]. cbn. ring.
    - rewrite dot_scale3_l, Hc. ring. }
  assert (Hy : dot (yAxis eye center up) d = 0).
  { unfold yAxis, zAxis. fold d.
    destruct (xAxis eye center up) as [[? ?] ?], d as [[? ?] ?].
    cbn. ring. }
  rewrite !Hneg, Hx, Hy, Hz. entries.
Qed.

Lemma lookAt_target_witness :
  let d := sub (vec3_of [8; 5; 8]) (vec3_of [0; 0; 0]) in
  transform (mat4.lookAt mat4.create [8; 5; 8] [0; 0; 0] [0; 1; 0])
    [get [0; 0; 0] 0; get [0; 0; 0] 1; get [0; 0; 0] 2; 1] =
  [0; 0; - sqrt (dot d d); 1].
Proof.
  apply (lookAt_target mat4.create [8; 5; 8] [0; 0; 0] [0; 1; 0]).
  - reflexivity.
  - intros H. cbv [vec3_of get nth] in H. inversion H. lra.
Defined.

(** Projection keeps the depth order: of two points on the view axis in
    front of the camera, the nearer one gets the smaller depth, and
    between [near] and [far] the depth stays within -1 and 1. *)
Theorem perspective_depth_monotone
  (out : buffer) (fovy aspect near far d1 d2 : R) :
  length out = 16%nat ->
  0 < near -> near < far -> 0 < d1 -> d1 < d2 ->
  let proj := mat4.perspective out fovy aspect near far in
  ndcDepth proj (onAxis d1) < ndcDepth proj (onAxis d2) /\
  (near <= d1 -> d2 <= far ->
   -1 <= ndcDepth proj (onAxis d1) /\ ndcDepth proj (onAxis d2) <= 1).
Proof.
  intros Hlen Hnear Hfar Hd1 Hd2 proj. subst proj.
  assert (Hndc : forall d, 0 < d ->
            ndcDepth (mat4.perspective out fovy aspect near far) (onAxis d) =
            (far + near) / (far - near) - 2 * far * near / (far - near) / d).
  { intros d Hd. explode out Hlen. run_buffers. field. lra. }
  rewrite !Hndc by lra.
  assert (Hk : 0 < 2 * far * near / (far - near)).
  { apply Rdiv_lt_0_compat; nra. }
  set (k := 2 * far * near / (far - near)) in *.
  assert (Hinv : forall a b, 0 < a -> a <= b -> k / b <= k / a).
  { intros a b Ha Hab. unfold Rdiv. apply Rmult_le_compat_l; [lra|].
    apply Rinv_le_contravar; lra. }
  assert (Hinvlt : k / d2 < k / d1).
  { unfold Rdiv. apply Rmult_lt_compat_l; [lra|].
    apply Rinv_lt_contravar; [nra|lra]. }
  split; [lra|]. intros Hn Hf.
  pose proof (Hinv near d1 Hnear Hn). pose proof (Hinv d2 far ltac:(lra) Hf).
  assert (Hkn : k / near = 2 * far / (far - near)) by (subst k; field; lra).
  assert (Hkf : k / far = 2 * near / (far - near)) by (subst k; field; lra).
  assert (Hsum : (far + near) / (far - near) - 2 * far / (far - near) = -1)
    by (field; lra).
  assert (Hsum' : (far + near) / (far - near) - 2 * near / (far - near) = 1)
    by (field; lra).
  lra.
Qed.

Lemma perspective_depth_monotone_witness :
  let proj := mat4.perspective mat4.create (80 * PI / 180) (800 / 600)
                0.1 500 in
  ndcDepth proj (onAxis 3) < ndcDepth proj (onAxis 40) /\
  -1 <= ndcDepth proj (onAxis 3) /\ ndcDepth proj (onAxis 40) <= 1.
Proof.
  destruct (perspective_depth_monotone mat4.create (80 * PI / 180)
              (800 / 600) 0.1 500 3 40) as [H1 H2];
    [reflexivity | lra | lra | lra | lra |].
  split; [exact H1|]. apply H2; lra.
Defined.

(** ** The normal matrix *)

Lemma normalFromMat4_null_iff_witness :
  (fst (mat3.normalFromMat4 mat3.create mat4.create) = None <->
   det3 mat4.create = 0) /\
  snd (mat3.normalFromMat4 mat3.create mat4.create) = mat3.create.
Proof.
  destruct (normalFromMat4_null_iff mat3.create mat4.create) as [H1 H2].
  split; [exact H1|]. apply H2. cbv [det3 mat4.create repeat get nth]. ring.
Defined.

Lemma length_normalFromMat4 (out a : buffer) :
  length (snd (mat3.normalFromMat4 out a)) = length out.
Proof.
  unfold mat3.normalFromMat4. cbv zeta.
  match goal with
  | |- context [Req_dec_T ?d 0] => destruct (Req_dec_T d 0)
  end; cbn [snd]; [reflexivity|apply length_assign].
Qed.

(** For a nonzero determinant [normalFromMat4] returns its 9-entry output
    buffer, and what it has written there is the inverse of the
    upper-left 3x3 block: the product of the two is the identity. *)
Theorem normalFromMat4_writes_inverse (out a : buffer) :
  length out = 9%nat -> det3 a <> 0 ->
  exists n,
    mat3.normalFromMat4 out a = (Some n, n) /\
    length n = 9%nat /\ isInverse3 n a.
Proof.
  intros Hlen Hnz.
  destruct (normalFromMat4_cases out a) as [[Hz _]|[_ (n & Hn & Hinv)]];
    [contradiction|].
  exists n. split; [exact Hn|]. split; [|now apply Hinv].
  pose proof (length_normalFromMat4 out a) as H. rewrite Hn in H.
  cbn [snd] in H. now rewrite H.
Qed.

Lemma normalFromMat4_writes_inverse_witness :
  exists n,
    mat3.normalFromMat4 mat3.create shear = (Some n, n) /\
    length n = 9%nat /\ isInverse3 n shear.
Proof.
  apply (normalFromMat4_writes_inverse mat3.create shear).
  - reflexivity.
  - cbv [det3 shear get nth]. lra.
Defined.

(** An inverse of a diagonal block is its inverse-transpose as well. *)
Lemma diagonal_inverse_transpose (n a : buffer) :
  get a 1 = 0 -> get a 2 = 0 -> get a 4 = 0 ->
  get a 6 = 0 -> get a 8 = 0 -> get a 9 = 0 ->
  isInverse3 n a -> isInverseTranspose3 n a.
Proof.
  intros A1 A2 A4 A6 A8 A9 Hinv.
  assert (Hzero : forall x y z, x * y = 0 -> z * y = 1 -> x = 0).
  { intros x y z Hxy Hzy.
    replace x with (z * (x * y)) by (rewrite <- (Rmult_1_r x) at 2;
                                     rewrite <- Hzy; ring).
    rewrite Hxy. ring. }
  assert (H00 := Hinv 0%nat 0%nat). assert (H01 := Hinv 0%nat 1%nat).
  assert (H02 := Hinv 0%nat 2%nat). assert (H10 := Hinv 1%nat 0%nat).
  assert (H11 := Hinv 1%nat 1%nat). assert (H12 := Hinv 1%nat 2%nat).
  assert (H20 := Hinv 2%nat 0%nat). assert (H21 := Hinv 2%nat 1%nat).
  assert (H22 := Hinv 2%nat 2%nat).
  cbv [delta Nat.eqb Nat.mul Nat.add] in H00, H01, H02, H10, H11, H12,
                                         H20, H21, H22.
  specialize (H00 ltac:(lia) ltac:(lia)). specialize (H01 ltac:(lia) ltac:(lia)).
  specialize (H02 ltac:(lia) ltac:(lia)). specialize (H10 ltac:(lia) ltac:(lia)).
  specialize (H11 ltac:(lia) ltac:(lia)). specialize (H12 ltac:(lia) ltac:(lia)).
  specialize (H20 ltac:(lia) ltac:(lia)). specialize (H21 ltac:(lia) ltac:(lia)).
  specialize (H22 ltac:(lia) ltac:(lia)).
  rewrite ?A1, ?A2, ?A4, ?A6, ?A8, ?A9 in H00.
  rewrite ?A1, ?A2, ?A4, ?A6, ?A8, ?A9 in H01.
  rewrite ?A1, ?A2, ?A4, ?A6, ?A8, ?A9 in H02.
  rewrite ?A1, ?A2, ?A4, ?A6, ?A8, ?A9 in H10.
  rewrite ?A1, ?A2, ?A4, ?A6, ?A8, ?A9 in H11.
  rewrite ?A1, ?A2, ?A4, ?A6, ?A8, ?A9 in H12.
  rewrite ?A1, ?A2, ?A4, ?A6, ?A8, ?A9 in H20.
  rewrite ?A1, ?A2, ?A4, ?A6, ?A8, ?A9 in H21.
  rewrite ?A1, ?A2, ?A4, ?A6, ?A8, ?A9 in H22.
  assert (N1 : get n 1 = 0) by (apply (Hzero _ (get a 0) (get n 0)); lra).
  assert (N2 : get n 2 = 0) by (apply (Hzero _ (get a 0) (get n 0)); lra).
  assert (N3 : get n 3 = 0) by (apply (Hzero _ (get a 5) (get n 4)); lra).
  assert (N5 : get n 5 = 0) by (apply (Hzero _ (get a 5) (get n 4)); lra).
  assert (N6 : get n 6 = 0) by (apply (Hzero _ (get a 10) (get n 8)); lra).
  assert (N7 : get n 7 = 0) by (apply (Hzero _ (get a 10) (get n 8)); lra).
  intros i j Hi Hj.
  destruct i as [|[|[|i]]]; [| | |lia];
    (destruct j as [|[|[|j]]]; [| | |lia]);
    cbv [delta Nat.eqb Nat.mul Nat.add];
    rewrite ?A1, ?A2, ?A4, ?A6, ?A8, ?A9, ?N1, ?N2, ?N3, ?N5, ?N6, ?N7; lra.
Qed.

(** ** The matrices the engine draws with *)

Lemma starSize_range planet : 0.5 <= starSize planet <= 1.2.
Proof. unfold starSize. apply (clamp_range 0.5 1.2). lra. Qed.

Lemma planetSize_range planet : 0.2 <= planetSize planet <= 0.8.
Proof. unfold planetSize. apply (clamp_range 0.2 0.8). lra. Qed.

Lemma orbitRadius_range planet : 3 <= orbitRadius planet <= 7.
Proof.
  unfold orbitRadius.
  pose proof (clamp_range 3 7 (jsOr (a_over_rstar planet) 10 * 0.2)) as H.
  unfold clamp in H. replace 3.0 with 3 by lra. apply H. lra.
Qed.

(** A uniform scaling by [size] followed by a move to [pos]. *)
Lemma star_modelMatrix planet s :
  length (modelMatrix s) = 16%nat ->
  modelMatrix (drawStar (Some planet) s) =
  let k := starSize planet in
  [k; 0; 0; 0;  0; k; 0; 0;  0; 0; k; 0;  0; 0; 0; 1].
Proof.
  intros Hlen.
  cbn [drawStar updateNormalMatrix withNormalMatrix withModelMatrix
       modelMatrix time].
  fold (starSize planet). set (k := starSize planet).
  rewrite Rmult_0_r. unfold mat4.rotateY. rewrite sin_0, cos_0.
  remember (modelMatrix s) as model eqn:E. clear E.
  explode model Hlen. run_buffers. entries.
Qed.

Lemma planet_modelMatrix planet s :
  length (modelMatrix s) = 16%nat ->
  modelMatrix (placePlanet planet s) =
  let k := planetSize planet in
  let pos := planetPosition s planet in
  [k; 0; 0; 0;  0; k; 0; 0;  0; 0; k; 0;  get pos 0; get pos 1; get pos 2; 1].
Proof.
  intros Hlen.
  cbn [placePlanet updateNormalMatrix withNormalMatrix withModelMatrix
       modelMatrix time].
  fold (planetSize planet). set (k := planetSize planet).
  set (pos := planetPosition s planet).
  rewrite Rmult_0_r. unfold mat4.rotateY. rewrite sin_0, cos_0.
  remember (modelMatrix s) as model eqn:E. clear E.
  explode model Hlen. run_buffers. entries.
Qed.

Lemma star_normalMatrix planet s :
  normalMatrix (drawStar (Some planet) s) =
  snd (mat3.normalFromMat4 (normalMatrix s)
         (modelMatrix (drawStar (Some planet) s))).
Proof. reflexivity. Qed.

Lemma planet_normalMatrix planet s :
  normalMatrix (placePlanet planet s) =
  snd (mat3.normalFromMat4 (normalMatrix s)
         (modelMatrix (placePlanet planet s))).
Proof. reflexivity. Qed.

Lemma normalMatrix_handle e s :
  length (normalMatrix (handle e s)) = length (normalMatrix s).
Proof.
  assert (Hstar : forall p s,
            length (normalMatrix (drawStar p s)) = length (normalMatrix s)).
  { intros [p|] s'; [|reflexivity].
    cbn [drawStar updateNormalMatrix withNormalMatrix withModelMatrix
         normalMatrix].
    apply length_normalFromMat4. }
  assert (Hplanet : forall p s,
            length (normalMatrix (drawPlanet p s)) = length (normalMatrix s)).
  { intros [p|] s'; [|reflexivity].
    cbn [drawPlanet drawOrbit placePlanet updateNormalMatrix withNormalMatrix
         withModelMatrix normalMatrix].
    apply length_normalFromMat4. }
  destruct e; try reflexivity.
  - cbn. unfold onMouseMove. now destruct (negb _).
  - cbn. unfold animate.
    destruct (currentPlanet _); [|reflexivity].
    now rewrite Hplanet, Hstar.
Qed.

Lemma normalMatrix_reachable s :
  reachable s -> length (normalMatrix s) = 9%nat.
Proof.
  induction 1; [reflexivity|]. now rewrite normalMatrix_handle.
Qed.

(** A 9-entry buffer after [normalFromMat4] on a uniform scaling (with any
    translation) holds its inverse-transpose. *)
Lemma normalFromMat4_scaling (out : buffer) (k t0 t1 t2 : R) :
  length out = 9%nat -> 0 < k ->
  let a := [k; 0; 0; 0;  0; k; 0; 0;  0; 0; k; 0;  t0; t1; t2; 1] in
  isInverseTranspose3 (snd (mat3.normalFromMat4 out a)) a.
Proof.
  intros Hlen Hk a.
  assert (Hdet : det3 a <> 0).
  { subst a. cbv [det3 get nth].
    assert (0 < k * k * k) by (repeat apply Rmult_lt_0_compat; exact Hk).
    lra. }
  destruct (normalFromMat4_cases out a) as [[Hz _]|[_ (n & Hn & Hinv)]];
    [contradiction|].
  rewrite Hn. cbn [snd].
  apply diagonal_inverse_transpose; try reflexivity. now apply Hinv.
Qed.

(** The star is drawn scaled about the origin by [starSize], between 0.5
    and 1.2: a vertex [(x, y, z)] of the unit sphere lands at
    [starSize * (x, y, z)]. *)
Theorem star_model (s : PlanetSystem3D) (planet : PlanetRecord) (x y z : R) :
  reachable s ->
  transform (modelMatrix (drawStar (Some planet) s)) [x; y; z; 1] =
    [starSize planet * x; starSize planet * y; starSize planet * z; 1] /\
  0.5 <= starSize planet <= 1.2.
Proof.
  intros Hs. split; [|apply starSize_range].
  rewrite star_modelMatrix by now apply modelMatrix_reachable.
  run_buffers. entries.
Qed.

Lemma star_model_witness :
  transform (modelMatrix (drawStar (Some fallbackPlanet) initialSystem))
    [1; 0; 0; 1] =
    [starSize fallbackPlanet * 1; starSize fallbackPlanet * 0;
     starSize fallbackPlanet * 0; 1] /\
  0.5 <= starSize fallbackPlanet <= 1.2.
Proof.
  apply (star_model initialSystem fallbackPlanet 1 0 0 reachable_initial).
Defined.

(** The planet is drawn scaled by [planetSize], between 0.2 and 0.8, and
    moved to [planetPosition]: a vertex [(x, y, z)] of the unit sphere
    lands at [planetPosition + planetSize * (x, y, z)]. *)
Theorem planet_model (s : PlanetSystem3D) (planet : PlanetRecord) (x y z : R) :
  reachable s ->
  let pos := planetPosition s planet in
  transform (modelMatrix (placePlanet planet s)) [x; y; z; 1] =
    [get pos 0 + planetSize planet * x; get pos 1 + planetSize planet * y;
     get pos 2 + planetSize planet * z; 1] /\
  0.2 <= planetSize planet <= 0.8.
Proof.
  intros Hs pos. split; [|apply planetSize_range].
  rewrite planet_modelMatrix by now apply modelMatrix_reachable.
  fold pos. run_buffers. entries.
Qed.

Lemma planet_model_witness :
  let pos := planetPosition initialSystem fallbackPlanet in
  transform (modelMatrix (placePlanet fallbackPlanet initialSystem))
    [1; 0; 0; 1] =
    [get pos 0 + planetSize fallbackPlanet * 1;
     get pos 1 + planetSize fallbackPlanet * 0;
     get pos 2 + planetSize fallbackPlanet * 0; 1] /\
  0.2 <= planetSize fallbackPlanet <= 0.8.
Proof.
  apply (planet_model initialSystem fallbackPlanet 1 0 0 reachable_initial).
Defined.

(** For the model matrices the engine itself builds, the normal matrix it
    uploads is right: after [drawStar], and in [drawPlanet] when the sphere
    is drawn, [normalMatrix] is the inverse-transpose of the upper-left
    block of [modelMatrix]. *)
Theorem engine_normal_matrix (s : PlanetSystem3D) (planet : PlanetRecord) :
  reachable s ->
  isInverseTranspose3 (normalMatrix (drawStar (Some planet) s))
    (modelMatrix (drawStar (Some planet) s)) /\
  isInverseTranspose3 (normalMatrix (placePlanet planet s))
    (modelMatrix (placePlanet planet s)).
Proof.
  intros Hs.
  pose proof (modelMatrix_reachable s Hs) as Hm.
  pose proof (normalMatrix_reachable s Hs) as Hn.
  pose proof (starSize_range planet). pose proof (planetSize_range planet).
  split.
  - rewrite star_normalMatrix, star_modelMatrix by exact Hm.
    apply normalFromMat4_scaling; [exact Hn|lra].
  - rewrite planet_normalMatrix, planet_modelMatrix by exact Hm.
    apply normalFromMat4_scaling; [exact Hn|lra].
Qed.

Lemma engine_normal_matrix_witness :
  isInverseTranspose3
    (normalMatrix (drawStar (Some fallbackPlanet) initialSystem))
    (modelMatrix (drawStar (Some fallbackPlanet) initialSystem)) /\
  isInverseTranspose3
    (normalMatrix (placePlanet fallbackPlanet initialSystem))
    (modelMatrix (placePlanet fallbackPlanet initialSystem)).
Proof.
  apply (engine_normal_matrix initialSystem fallbackPlanet reachable_initial).
Defined.

(** The planet circles the star without touching it: its centre lies in
    the plane [y = 0] at [orbitRadius] from the origin, between 3 and 7,
    and the two spheres, of radii [starSize] and [planetSize], are more
    than 1 apart. *)
Theorem planet_clear_of_star (s : PlanetSystem3D) (planet : PlanetRecord) :
  let pos := vec3_of (planetPosition s planet) in
  dot pos pos = orbitRadius planet * orbitRadius planet /\
  get (planetPosition s planet) 1 = 0 /\
  3 <= orbitRadius planet <= 7 /\
  starSize planet + planetSize planet + 1 <= orbitRadius planet.
Proof.
  pose proof (starSize_range planet). pose proof (planetSize_range planet).
  pose proof (orbitRadius_range planet).
  repeat split; try lra.
  cbv [planetPosition vec3_of get nth dot].
  set (t := orbitAngle s planet). set (r := orbitRadius planet).
  pose proof (sin2_cos2 t) as Ht. unfold Rsqr in Ht.
  replace (cos t * r * (cos t * r) + 0 * 0 + sin t * r * (sin t * r))
    with ((sin t * sin t + cos t * cos t) * (r * r)) by ring.
  rewrite Ht. ring.
Qed.

(** ** The geometry of the sphere *)

(** Entry [q * k + r] of a buffer filled by a loop that pushes [k] values
    per round is entry [r] of round [q]. *)
Lemma nth_flat_map_seq {A : Type} (d : A) (k : nat) (f : nat -> list A)
  (n start q r : nat) :
  (forall x, length (f x) = k) -> (q < n)%nat -> (r < k)%nat ->
  nth (q * k + r) (flat_map f (seq start n)) d = nth r (f (start + q)%nat) d.
Proof.
  intros Hf. revert start q.
  induction n as [|n IH]; intros start q Hq Hr; [lia|].
  cbn [seq flat_map]. destruct q as [|q].
  - cbn [Nat.mul Nat.add]. rewrite app_nth1 by (rewrite Hf; exact Hr).
    now rewrite Nat.add_0_r.
  - rewrite app_nth2 by (rewrite Hf; lia).
    replace (S q * k + r - length (f start))%nat with (q * k + r)%nat
      by (rewrite Hf; lia).
    rewrite IH by lia. f_equal. f_equal. lia.
Qed.

(** Entry [c] of the [w] values pushed for ring [i], segment [j]. *)
Lemma nth_grid (w : nat) (f : nat -> nat -> list R)
  (segments rings i j c : nat) :
  (forall i j, length (f i j) = w) ->
  (i <= rings)%nat -> (j <= segments)%nat -> (c < w)%nat ->
  nth (w * (i * (segments + 1) + j) + c)
    (flat_map (fun i => flat_map (f i) (seq 0 (S segments)))
       (seq 0 (S rings))) 0
  = nth c (f i j) 0.
Proof.
  intros Hf Hi Hj Hc.
  replace (w * (i * (segments + 1) + j) + c)%nat
    with (i * (w * (segments + 1)) + (j * w + c))%nat by lia.
  rewrite (nth_flat_map_seq 0 (w * (segments + 1))); [|intros x|lia|nia].
  - cbn [Nat.add]. now rewrite (nth_flat_map_seq 0 w) by (auto; lia).
  - rewrite flat_map_length_const with (k := w) by apply Hf.
    rewrite length_seq. lia.
Qed.

Lemma vertexAt_grid (g0 g1 g2 : nat -> nat -> R) (segments rings i j : nat) :
  (i <= rings)%nat -> (j <= segments)%nat ->
  vertexAt
    (flat_map (fun i => flat_map (fun j => [g0 i j; g1 i j; g2 i j])
                          (seq 0 (S segments)))
       (seq 0 (S rings)))
    (i * (segments + 1) + j)
  = (g0 i j, g1 i j, g2 i j).
Proof.
  intros Hi Hj. unfold vertexAt.
  pose proof (nth_grid 3 (fun i j => [g0 i j; g1 i j; g2 i j])
                segments rings i j) as H.
  cbv beta in H.
  rewrite <- (Nat.add_0_r (3 * (i * (segments + 1) + j))) at 1.
  rewrite !H by (auto; lia). reflexivity.
Qed.

Lemma uvAt_grid (g0 g1 : nat -> nat -> R) (segments rings i j : nat) :
  (i <= rings)%nat -> (j <= segments)%nat ->
  uvAt
    (flat_map (fun i => flat_map (fun j => [g0 i j; g1 i j])
                          (seq 0 (S segments)))
       (seq 0 (S rings)))
    (i * (segments + 1) + j)
  = (g0 i j, g1 i j).
Proof.
  intros Hi Hj. unfold uvAt.
  pose proof (nth_grid 2 (fun i j => [g0 i j; g1 i j])
                segments rings i j) as H.
  cbv beta in H.
  rewrite <- (Nat.add_0_r (2 * (i * (segments + 1) + j))) at 1.
  rewrite !H by (auto; lia). reflexivity.
Qed.

(** The point of the unit sphere at ring [i] of [rings] and segment [j] of
    [segments]: latitude from -pi/2 to pi/2, longitude once around. *)
Lemma createSphere_grid (radius : R) (segments rings i j : nat) :
  (i <= rings)%nat -> (j <= segments)%nat ->
  let m := createSphere radius segments rings in
  let k := (i * (segments + 1) + j)%nat in
  let lat := PI * (-0.5 + INR i / INR rings) in
  let lng := 2 * PI * (INR j / INR segments) in
  vertexAt (normals m) k = (cos lng * cos lat, sin lat, sin lng * cos lat) /\
  vertexAt (positions m) k =
    (cos lng * cos lat * radius, sin lat * radius,
     sin lng * cos lat * radius) /\
  uvAt (uvs m) k = (1 - INR j / INR segments, 1 - INR i / INR rings).
Proof.
  intros Hi Hj m k lat lng. subst m k lat lng.
  split; [|split].
  - exact (vertexAt_grid
             (fun i j => cos (2 * PI * (INR j / INR segments))
                         * cos (PI * (-0.5 + INR i / INR rings)))
             (fun i j => sin (PI * (-0.5 + INR i / INR rings)))
             (fun i j => sin (2 * PI * (INR j / INR segments))
                         * cos (PI * (-0.5 + INR i / INR rings)))
             segments rings i j Hi Hj).
  - exact (vertexAt_grid
             (fun i j => cos (2 * PI * (INR j / INR segments))
                         * cos (PI * (-0.5 + INR i / INR rings)) * radius)
             (fun i j => sin (PI * (-0.5 + INR i / INR rings)) * radius)
             (fun i j => sin (2 * PI * (INR j / INR segments))
                         * cos (PI * (-0.5 + INR i / INR rings)) * radius)
             segments rings i j Hi Hj).
  - exact (uvAt_grid
             (fun i j => 1 - INR j / INR segments)
             (fun i j => 1 - INR i / INR rings)
             segments rings i j Hi Hj).
Qed.

(** For at least one ring and one segment, every vertex of the mesh lies
    on the sphere: vertex
    [i * (segments + 1) + j], which the index loop calls [first] for ring
    [i] and segment [j], has a normal of length 1 and a position that is
    the normal times [radius], at distance [radius] from the centre. *)
Theorem createSphere_on_sphere (radius : R) (segments rings i j : nat) :
  (0 < segments)%nat -> (0 < rings)%nat ->
  (i <= rings)%nat -> (j <= segments)%nat ->
  let m := createSphere radius segments rings in
  let k := (i * (segments + 1) + j)%nat in
  dot (vertexAt (normals m) k) (vertexAt (normals m) k) = 1 /\
  vertexAt (positions m) k = scale3 radius (vertexAt (normals m) k) /\
  dot (vertexAt (positions m) k) (vertexAt (positions m) k) = radius * radius.
Proof.
  intros _ _ Hi Hj m k.
  destruct (createSphere_grid radius segments rings i j Hi Hj)
    as (Hn & Hp & _).
  fold m k in Hn, Hp. rewrite Hp, Hn.
  set (lat := PI * (-0.5 + INR i / INR rings)).
  set (lng := 2 * PI * (INR j / INR segments)).
  pose proof (sin2_cos2 lat) as Hlat. pose proof (sin2_cos2 lng) as Hlng.
  unfold Rsqr in Hlat, Hlng.
  assert (Hunit : cos lng * cos lat * (cos lng * cos lat) + sin lat * sin lat
                  + sin lng * cos lat * (sin lng * cos lat) = 1).
  { replace (cos lng * cos lat * (cos lng * cos lat) + sin lat * sin lat
             + sin lng * cos lat * (sin lng * cos lat))
      with ((sin lng * sin lng + cos lng * cos lng) * (cos lat * cos lat)
            + sin lat * sin lat) by ring.
    rewrite Hlng. lra. }
  cbn [dot scale3]. split; [exact Hunit|]. split; [reflexivity|].
  replace (cos lng * cos lat * radius * (cos lng * cos lat * radius)
           + sin lat * radius * (sin lat * radius)
           + sin lng * cos lat * radius * (sin lng * cos lat * radius))
    with ((cos lng * cos lat * (cos lng * cos lat) + sin lat * sin lat
           + sin lng * cos lat * (sin lng * cos lat)) * (radius * radius))
    by ring.
  rewrite Hunit. ring.
Qed.

Lemma createSphere_on_sphere_witness :
  let m := createSphere 1 64 32 in
  let k := (16 * (64 + 1) + 8)%nat in
  dot (vertexAt (normals m) k) (vertexAt (normals m) k) = 1 /\
  vertexAt (positions m) k = scale3 1 (vertexAt (normals m) k) /\
  dot (vertexAt (positions m) k) (vertexAt (positions m) k) = 1 * 1.
Proof. apply (createSphere_on_sphere 1 64 32 16 8); lia. Defined.

(** The mesh is closed and capped.  With at least one ring and one
    segment: ring 0 is the south pole and the last ring the north pole,
    whatever the segment; and on every ring the last segment ends on the
    vertex the first one starts from, the seam, where only the texture
    coordinate differs (0 against 1). *)
Theorem createSphere_poles_seam (radius : R) (segments rings i j : nat) :
  (0 < segments)%nat -> (0 < rings)%nat ->
  (i <= rings)%nat -> (j <= segments)%nat ->
  let m := createSphere radius segments rings in
  let at_ i j := (i * (segments + 1) + j)%nat in
  vertexAt (positions m) (at_ 0%nat j) = (0, - radius, 0) /\
  vertexAt (positions m) (at_ rings j) = (0, radius, 0) /\
  vertexAt (positions m) (at_ i segments) = vertexAt (positions m) (at_ i 0%nat) /\
  fst (uvAt (uvs m) (at_ i 0%nat)) = 1 /\
  fst (uvAt (uvs m) (at_ i segments)) = 0.
Proof.
  intros Hs Hr Hi Hj m at_. subst m at_. cbv beta.
  assert (HS : INR segments <> 0) by (apply not_0_INR; lia).
  assert (HR : INR rings <> 0) by (apply not_0_INR; lia).
  destruct (createSphere_grid radius segments rings 0 j ltac:(lia) Hj)
    as (_ & -> & _).
  destruct (createSphere_grid radius segments rings rings j ltac:(lia) Hj)
    as (_ & -> & _).
  destruct (createSphere_grid radius segments rings i segments Hi ltac:(lia))
    as (_ & -> & ->).
  destruct (createSphere_grid radius segments rings i 0 Hi ltac:(lia))
    as (_ & -> & ->).
  cbn [fst INR].
  assert (E0 : forall x, 0 / x = 0) by (intros; unfold Rdiv; ring).
  assert (ER : INR rings / INR rings = 1) by (field; exact HR).
  assert (ES : INR segments / INR segments = 1) by (field; exact HS).
  rewrite !E0, ER, ES.
  replace (PI * (-0.5 + 0)) with (- (PI / 2)) by lra.
  replace (PI * (-0.5 + 1)) with (PI / 2) by lra.
  replace (2 * PI * 1) with (2 * PI) by lra.
  replace (2 * PI * 0) with 0 by lra.
  rewrite cos_neg, sin_neg, cos_PI2, sin_PI2, cos_2PI, sin_2PI, cos_0, sin_0.
  repeat split; try (f_equal; [f_equal|]; ring); lra.
Qed.

Lemma createSphere_poles_seam_witness :
  let m := createSphere 1 64 32 in
  let at_ i j := (i * (64 + 1) + j)%nat in
  vertexAt (positions m) (at_ 0%nat 8%nat) = (0, - (1), 0) /\
  vertexAt (positions m) (at_ 32%nat 8%nat) = (0, 1, 0) /\
  vertexAt (positions m) (at_ 16%nat 64%nat)
    = vertexAt (positions m) (at_ 16%nat 0%nat) /\
  fst (uvAt (uvs m) (at_ 16%nat 0%nat)) = 1 /\
  fst (uvAt (uvs m) (at_ 16%nat 64%nat)) = 0.
Proof. apply (createSphere_poles_seam 1 64 32 16 8); lia. Defined.

(** ** What the handlers keep *)

Lemma mouse_animate now w h s : mouse (animate now w h s) = mouse s.
Proof. unfold animate. now destruct (currentPlanet _). Qed.

Lemma clock_animate now w h s :
  time (animate now w h s) = time s + (now - lastFrameTime s) / 1000 /\
  lastFrameTime (animate now w h s) = now.
Proof. unfold animate. now destruct (currentPlanet _). Qed.

Lemma camera_animate now w h s :
  let c := cameraControls (animate now w h s) in
  camera (animate now w h s) =
  mkCamera
    (assign (position (camera s))
       [wr 0 (distance c * cos (elevation c) * cos (azimuth c));
        wr 1 (distance c * sin (elevation c));
        wr 2 (distance c * cos (elevation c) * sin (azimuth c))])
    (target (camera s)) (up (camera s)) (fov (camera s)) (near (camera s))
    (far (camera s)).
Proof.
  cbv zeta. rewrite controls_animate. unfold animate.
  destruct (currentPlanet _); reflexivity.
Qed.

(** The settings the constructor writes are never written again: in every
    state the engine can reach they have their first values. *)
Theorem settings_constant (s : PlanetSystem3D) :
  reachable s ->
  (minDistance (cameraControls s) = 3 /\
   maxDistance (cameraControls s) = 40 /\
   damping (cameraControls s) = 0.1 /\
   autoRotateSpeed (cameraControls s) = 0.15) /\
  sensitivity (mouse s) = 0.005 /\
  orbitSpeed s = 10 /\
  (target (camera s) = [0; 0; 0] /\ up (camera s) = [0; 1; 0] /\
   fov (camera s) = 80 /\ near (camera s) = 0.1 /\ far (camera s) = 500).
Proof.
  induction 1 as [|e s Hs IH]; [cbn; tauto|].
  destruct IH as ((H1 & H2 & H3 & H4) & H5 & H6 & H7 & H8 & H9 & H10 & H11).
  rewrite orbitSpeed_handle.
  destruct e; cbn [handle].
  1, 3, 4, 5, 6, 8: cbn; tauto.
  - unfold onMouseMove. destruct (negb _); cbn; tauto.
  - rewrite controls_animate, mouse_animate.
    pose proof (camera_animate now width height s) as Hc. cbv zeta in Hc.
    rewrite Hc. unfold updateCamera. cbn.
    destruct (autoRotate (cameraControls s)); cbn; tauto.
Qed.

Lemma settings_constant_witness :
  let s := handle (Frame 16 800 600) (handle (Wheel 1) initialSystem) in
  (minDistance (cameraControls s) = 3 /\
   maxDistance (cameraControls s) = 40 /\
   damping (cameraControls s) = 0.1 /\
   autoRotateSpeed (cameraControls s) = 0.15) /\
  sensitivity (mouse s) = 0.005 /\
  orbitSpeed s = 10 /\
  (target (camera s) = [0; 0; 0] /\ up (camera s) = [0; 1; 0] /\
   fov (camera s) = 80 /\ near (camera s) = 0.1 /\ far (camera s) = 500).
Proof.
  apply settings_constant. repeat apply reachable_step. apply reachable_initial.
Defined.

(** Input only ever moves the targets: no event but a frame changes the
    current azimuth, elevation or distance, the camera, the matrices or
    the clock. *)
Theorem input_moves_targets_only (e : Event) (s : PlanetSystem3D) :
  ~ isFrame e ->
  (azimuth (cameraControls (handle e s)) = azimuth (cameraControls s) /\
   elevation (cameraControls (handle e s)) = elevation (cameraControls s) /\
   distance (cameraControls (handle e s)) = distance (cameraControls s)) /\
  camera (handle e s) = camera s /\
  (modelMatrix (handle e s) = modelMatrix s /\
   viewMatrix (handle e s) = viewMatrix s /\
   projectionMatrix (handle e s) = projectionMatrix s /\
   normalMatrix (handle e s) = normalMatrix s) /\
  (time (handle e s) = time s /\ lastFrameTime (handle e s) = lastFrameTime s).
Proof.
  intros He. destruct e; cbn [handle].
  1, 3, 4, 5, 6, 8: cbn; tauto.
  - unfold onMouseMove. destruct (negb _); cbn; tauto.
  - contradiction He. exact I.
Qed.

Lemma input_moves_targets_only_witness :
  let e := MouseMove 10 20 in
  let s := onMouseDown 0 0 initialSystem in
  (azimuth (cameraControls (handle e s)) = azimuth (cameraControls s) /\
   elevation (cameraControls (handle e s)) = elevation (cameraControls s) /\
   distance (cameraControls (handle e s)) = distance (cameraControls s)) /\
  camera (handle e s) = camera s /\
  (modelMatrix (handle e s) = modelMatrix s /\
   viewMatrix (handle e s) = viewMatrix s /\
   projectionMatrix (handle e s) = projectionMatrix s /\
   normalMatrix (handle e s) = normalMatrix s) /\
  (time (handle e s) = time s /\ lastFrameTime (handle e s) = lastFrameTime s).
Proof.
  apply (input_moves_targets_only (MouseMove 10 20)
           (onMouseDown 0 0 initialSystem)).
  intros H. exact H.
Defined.

(** Taking over is sticky: once the auto-rotation is off, nothing but a
    double-click turns it on again; and a mouse-down or a wheel event turns
    it off. *)
Theorem manual_override_sticky (s : PlanetSystem3D) (es : list Event) :
  autoRotate (cameraControls s) = false ->
  Forall (fun e => e <> DblClick) es ->
  autoRotate (cameraControls (run es s)) = false /\
  (forall x y, autoRotate (cameraControls (run (es ++ [MouseDown x y]) s))
               = false) /\
  (forall d, autoRotate (cameraControls (run (es ++ [Wheel d]) s)) = false).
Proof.
  intros Hoff Hes.
  assert (Hrun : autoRotate (cameraControls (run es s)) = false).
  { unfold run. revert s Hoff.
    induction Hes as [|e es He _ IH]; intros s Hoff; [exact Hoff|].
    cbn [fold_left]. apply IH.
    destruct e; cbn [handle]; try (cbn; exact Hoff).
    - reflexivity.
    - unfold onMouseMove. destruct (negb _); cbn; exact Hoff.
    - reflexivity.
    - now contradiction He.
    - rewrite controls_animate. unfold updateCamera. cbn.
      rewrite Hoff. reflexivity. }
  split; [exact Hrun|]. split; intros; rewrite run_snoc; reflexivity.
Qed.

Lemma manual_override_sticky_witness :
  let s := onWheel 1 initialSystem in
  let es := [Frame 16 800 600; MouseDown 0 0; MouseMove 5 5; MouseUp;
             Frame 32 800 600] in
  autoRotate (cameraControls (run es s)) = false /\
  (forall x y, autoRotate (cameraControls (run (es ++ [MouseDown x y]) s))
               = false) /\
  (forall d, autoRotate (cameraControls (run (es ++ [Wheel d]) s)) = false).
Proof.
  apply manual_override_sticky; [reflexivity|].
  repeat constructor; discriminate.
Defined.

(** ** The clock and the camera *)

(** The elapsed time is the timestamp of the last frame, in seconds: the
    deltas add up, starting from a last frame time of 0. *)
Theorem clock_is_last_frame (s : PlanetSystem3D) :
  reachable s ->
  time s = lastFrameTime s / 1000 /\
  forall now w h, time (animate now w h s) = now / 1000.
Proof.
  intros Hs.
  assert (Hinv : time s = lastFrameTime s / 1000).
  { induction Hs as [|e s Hs IH]; [cbn; lra|].
    destruct e; cbn [handle]; try exact IH.
    - unfold onMouseMove. destruct (negb _); exact IH.
    - destruct (clock_animate now width height s) as [-> ->]. rewrite IH. lra. }
  split; [exact Hinv|]. intros now w h.
  destruct (clock_animate now w h s) as [-> _]. rewrite Hinv. lra.
Qed.

Lemma clock_is_last_frame_witness :
  let s := handle (Frame 16 800 600) initialSystem in
  time s = lastFrameTime s / 1000 /\
  forall now w h, time (animate now w h s) = now / 1000.
Proof.
  apply clock_is_last_frame. apply reachable_step, reachable_initial.
Defined.

Lemma distanceInvariant_reachable s : reachable s -> distanceInvariant s.
Proof.
  induction 1; [apply distanceInvariant_initial|].
  now apply distanceInvariant_handle.
Qed.

Lemma handle_Frame now w h s : handle (Frame now w h) s = animate now w h s.
Proof. reflexivity. Qed.

Lemma reachable_animate now w h s :
  reachable s -> reachable (animate now w h s).
Proof. intros H. rewrite <- handle_Frame. now apply reachable_step. Qed.

Lemma position_reachable s :
  reachable s -> length (position (camera s)) = 3%nat.
Proof.
  induction 1 as [|e s Hs IH]; [reflexivity|].
  destruct e; cbn [handle]; try exact IH.
  - unfold onMouseMove. destruct (negb _); exact IH.
  - pose proof (camera_animate now width height s) as Hc. cbv zeta in Hc.
    rewrite Hc. cbn [position]. now rewrite length_assign.
Qed.

(** After every frame the camera sits where the eased spherical
    coordinates say, at [distance] from the origin it looks at, and so
    between 3 and 40 away from it. *)
Theorem camera_on_sphere (s : PlanetSystem3D) (now w h : R) :
  reachable s ->
  let s' := animate now w h s in
  let c := cameraControls s' in
  let p := vec3_of (position (camera s')) in
  position (camera s') =
    [distance c * cos (elevation c) * cos (azimuth c);
     distance c * sin (elevation c);
     distance c * cos (elevation c) * sin (azimuth c)] /\
  dot p p = distance c * distance c /\
  3 * 3 <= dot p p <= 40 * 40.
Proof.
  intros Hs s' c p.
  assert (Hinv : distanceInvariant s')
    by (apply distanceInvariant_reachable, reachable_animate, Hs).
  destruct Hinv as (_ & _ & _ & Hd & _). fold c in Hd.
  assert (Hpos : position (camera s') =
                 [distance c * cos (elevation c) * cos (azimuth c);
                  distance c * sin (elevation c);
                  distance c * cos (elevation c) * sin (azimuth c)]).
  { pose proof (camera_animate now w h s) as Hc. cbv zeta in Hc.
    fold s' in Hc. fold c in Hc. rewrite Hc.
    pose proof (position_reachable s Hs) as Hlen.
    clearbody c. clear Hc. cbn [position].
    remember (position (camera s)) as pos eqn:E. clear E.
    explode pos Hlen. reflexivity. }
  subst p. rewrite Hpos. revert Hd.
  generalize (distance c), (elevation c), (azimuth c).
  clear. intros d el az Hd.
  assert (Hdot : dot (vec3_of [d * cos el * cos az; d * sin el;
                               d * cos el * sin az])
                     (vec3_of [d * cos el * cos az; d * sin el;
                               d * cos el * sin az]) = d * d).
  { cbv [vec3_of get nth dot].
    pose proof (sin2_cos2 el) as He.
    pose proof (sin2_cos2 az) as Ha. unfold Rsqr in He, Ha.
    replace (d * cos el * cos az * (d * cos el * cos az)
             + d * sin el * (d * sin el)
             + d * cos el * sin az * (d * cos el * sin az))
      with (d * d * ((sin az * sin az + cos az * cos az) * (cos el * cos el)
                     + sin el * sin el)) by ring.
    rewrite Ha. replace (1 * (cos el * cos el) + sin el * sin el) with 1 by lra.
    ring. }
  split; [reflexivity|]. split; [exact Hdot|]. rewrite Hdot.
  clear Hdot. nra.
Qed.

Lemma camera_on_sphere_witness :
  let s' := animate 16 800 600 initialSystem in
  let c := cameraControls s' in
  let p := vec3_of (position (camera s')) in
  position (camera s') =
    [distance c * cos (elevation c) * cos (azimuth c);
     distance c * sin (elevation c);
     distance c * cos (elevation c) * sin (azimuth c)] /\
  dot p p = distance c * distance c /\
  3 * 3 <= dot p p <= 40 * 40.
Proof. apply (camera_on_sphere initialSystem 16 800 600 reachable_initial). Defined.

(** Left alone or only zoomed and clicked, the camera stays level: as long
    as no mouse move happens during a drag, the elevation and its target
    stay between 0.15 and 0.45 radians, the range of the auto-rotation's
    sway around 0.3. *)
Theorem elevation_band (es : list Event) :
  Forall (fun e => forall x y, e <> MouseMove x y) es ->
  let c := cameraControls (run es initialSystem) in
  0.15 <= elevation c <= 0.45 /\ 0.15 <= targetElevation c <= 0.45.
Proof.
  intros Hes.
  assert (Hinv : forall s,
            damping (cameraControls s) = 0.1 ->
            0.15 <= elevation (cameraControls s) <= 0.45 ->
            0.15 <= targetElevation (cameraControls s) <= 0.45 ->
            let c := cameraControls (run es s) in
            0.15 <= elevation c <= 0.45 /\ 0.15 <= targetElevation c <= 0.45).
  { unfold run. induction Hes as [|e es He _ IH]; intros s Hd Hel Ht;
      cbn [fold_left]; [split; assumption|].
    destruct e; cbn [handle].
    - apply IH; cbn; assumption.
    - exfalso. exact (He clientX clientY eq_refl).
    - apply IH; cbn; assumption.
    - apply IH; cbn; assumption.
    - apply IH; cbn; assumption.
    - apply IH; cbn; try assumption; lra.
    - pose proof (SIN_bound ((time s + (now - lastFrameTime s) / 1000) * 0.1))
        as Hsin.
      apply IH; rewrite controls_animate; unfold updateCamera; cbn;
        destruct (autoRotate (cameraControls s)); cbn; rewrite ?Hd;
        unfold damp; try assumption; lra.
    - apply IH; cbn; assumption. }
  apply Hinv; cbn; lra.
Qed.

Lemma elevation_band_witness :
  let es := [Frame 16 800 600; Wheel 1; MouseDown 3 4; MouseUp; DblClick;
             Frame 32 800 600] in
  let c := cameraControls (run es initialSystem) in
  0.15 <= elevation c <= 0.45 /\ 0.15 <= targetElevation c <= 0.45.
Proof. apply elevation_band. repeat constructor; discriminate. Defined.

(** ** Dragging and zooming *)

(** A drag depends on where the pointer is, not on how it got there: two
    mouse moves during a drag leave the engine as one move to the second
    point does, and a move back to where the drag stood restores both
    targets. *)
Theorem drag_path_independent (s : PlanetSystem3D) (x1 y1 x2 y2 : R) :
  isDown (mouse s) = true ->
  onMouseMove x2 y2 (onMouseMove x1 y1 s) = onMouseMove x2 y2 s /\
  let back := onMouseMove (lastX (mouse s)) (lastY (mouse s))
                (onMouseMove x1 y1 s) in
  targetAzimuth (cameraControls back) = targetAzimuth (cameraControls s) /\
  targetElevation (cameraControls back) = targetElevation (cameraControls s).
Proof.
  intros Hdown.
  assert (Hmove : forall x y,
            onMouseMove x y s =
            withMouse (mkMouse true x y (sensitivity (mouse s)))
              (withControls
                 (let c := cameraControls s in
                  {| distance := distance c; minDistance := minDistance c;
                     maxDistance := maxDistance c; azimuth := azimuth c;
                     elevation := elevation c;
                     targetAzimuth :=
                       targetAzimuth c
                       - (x - lastX (mouse s)) * sensitivity (mouse s);
                     targetElevation :=
                       targetElevation c
                       + (y - lastY (mouse s)) * sensitivity (mouse s);
                     targetDistance := targetDistance c;
                     damping := damping c; autoRotate := autoRotate c;
                     autoRotateSpeed := autoRotateSpeed c |}) s)).
  { intros x y. unfold onMouseMove. rewrite Hdown. cbn. rewrite Hdown.
    reflexivity. }
  split.
  - rewrite (Hmove x1 y1). unfold onMouseMove at 1. cbn.
    rewrite (Hmove x2 y2). unfold withMouse, withControls. cbn.
    f_equal. f_equal; ring.
  - rewrite (Hmove x1 y1). unfold onMouseMove. cbn. split; ring.
Qed.

Lemma drag_path_independent_witness :
  let s := onMouseDown 100 100 initialSystem in
  onMouseMove 130 90 (onMouseMove 110 120 s) = onMouseMove 130 90 s /\
  let back := onMouseMove (lastX (mouse s)) (lastY (mouse s))
                (onMouseMove 110 120 s) in
  targetAzimuth (cameraControls back) = targetAzimuth (cameraControls s) /\
  targetElevation (cameraControls back) = targetElevation (cameraControls s).
Proof.
  apply (drag_path_independent (onMouseDown 100 100 initialSystem)
           110 120 130 90).
  reflexivity.
Defined.

Lemma clamp_inside lo hi x : lo <= x <= hi -> clamp lo hi x = x.
Proof. intros H. unfold clamp, Rmax, Rmin. by_cases. Qed.

Lemma limits_onWheel d s :
  minDistance (cameraControls (onWheel d s)) = minDistance (cameraControls s) /\
  maxDistance (cameraControls (onWheel d s)) = maxDistance (cameraControls s).
Proof. split; reflexivity. Qed.

(** Zooming out and back in does not return to where it started: away
    from the limits, one notch out and one notch in leave the target
    distance at 0.99 times what it was. *)
Theorem wheel_out_in_drifts (s : PlanetSystem3D) (out back : R) :
  minDistance (cameraControls s) = 3 ->
  maxDistance (cameraControls s) = 40 ->
  0 < out -> back <= 0 ->
  3 <= targetDistance (cameraControls s) * 0.99 ->
  targetDistance (cameraControls s) * 1.1 <= 40 ->
  targetDistance (cameraControls (onWheel back (onWheel out s))) =
  0.99 * targetDistance (cameraControls s).
Proof.
  intros Hmin Hmax Hout Hback Hlo Hhi.
  destruct (limits_onWheel out s) as [Hmin' Hmax'].
  rewrite onWheel_target, Hmin', Hmax', Hmin, Hmax.
  rewrite onWheel_target, Hmin, Hmax.
  unfold wheelFactor.
  destruct (Rlt_dec 0 out) as [_|H]; [|contradiction].
  destruct (Rlt_dec 0 back) as [H|_]; [lra|].
  rewrite (clamp_inside 3 40 (targetDistance (cameraControls s) * 1.1)) by lra.
  rewrite clamp_inside by lra. lra.
Qed.

Lemma wheel_out_in_drifts_witness :
  targetDistance (cameraControls (onWheel (-120) (onWheel 120 initialSystem)))
  = 0.99 * targetDistance (cameraControls initialSystem).
Proof.
  apply (wheel_out_in_drifts initialSystem 120 (-120));
    cbn; try reflexivity; lra.
Defined.

(** The target distance after [n] notches in one direction. *)
Lemma wheel_repeat (d : R) (n : nat) (s : PlanetSystem3D) :
  minDistance (cameraControls s) = 3 ->
  maxDistance (cameraControls s) = 40 ->
  3 <= targetDistance (cameraControls s) <= 40 ->
  targetDistance (cameraControls (run (repeat (Wheel d) n) s)) =
  clamp 3 40 (targetDistance (cameraControls s) * wheelFactor d ^ n).
Proof.
  revert s. induction n as [|n IH]; intros s Hmin Hmax Ht.
  - cbn. rewrite Rmult_1_r. now rewrite clamp_inside.
  - cbn [repeat]. unfold run. cbn [fold_left handle]. fold (run (repeat (Wheel d) n) (onWheel d s)).
    destruct (limits_onWheel d s) as [Hmin' Hmax'].
    rewrite IH; [|congruence|congruence|].
    + rewrite onWheel_target, Hmin, Hmax. cbn [pow].
      set (t := targetDistance (cameraControls s)) in *.
      set (f := wheelFactor d).
      assert (Hf : f = 1.1 \/ f = 0.9).
      { subst f. unfold wheelFactor. destruct (Rlt_dec 0 d); auto. }
      assert (Hp : 0 < f ^ n) by (apply pow_lt; destruct Hf; lra).
      assert (Hfn : (f = 1.1 /\ 1 <= f ^ n) \/ (f = 0.9 /\ f ^ n <= 1)).
      { destruct Hf as [E|E]; [left|right]; split; auto; rewrite E.
        - apply pow_R1_Rle. lra.
        - clear. induction n as [|n IH]; cbn [pow]; [lra|].
          assert (0 < 0.9 ^ n) by (apply pow_lt; lra). nra. }
      unfold clamp, Rmax, Rmin.
      destruct Hfn as [[E Hn]|[E Hn]]; rewrite E in *; by_cases; nra.
    + rewrite onWheel_target, Hmin, Hmax. apply clamp_range. lra.
Qed.

(** The zoom runs into its limits: from anywhere in range, 28 notches out
    put the target distance at the maximum, 40, and 25 notches in at the
    minimum, 3. *)
Theorem wheel_saturates (s : PlanetSystem3D) (out back : R) :
  reachable s -> 0 < out -> back <= 0 ->
  targetDistance (cameraControls (run (repeat (Wheel out) 28) s)) = 40 /\
  targetDistance (cameraControls (run (repeat (Wheel back) 25) s)) = 3.
Proof.
  intros Hs Hout Hback.
  destruct (distanceInvariant_reachable s Hs) as (Hmin & Hmax & _ & _ & Ht).
  rewrite !wheel_repeat by assumption. unfold wheelFactor.
  destruct (Rlt_dec 0 out); [|lra]. destruct (Rlt_dec 0 back); [lra|].
  set (t := targetDistance (cameraControls s)) in *.
  unfold clamp, Rmax, Rmin. cbn [pow]. split; by_cases.
Qed.

Lemma wheel_saturates_witness :
  targetDistance
    (cameraControls (run (repeat (Wheel 100) 28) initialSystem)) = 40 /\
  targetDistance
    (cameraControls (run (repeat (Wheel (-100)) 25) initialSystem)) = 3.
Proof.
  apply (wheel_saturates initialSystem 100 (-100) reachable_initial); lra.
Defined.

(** ** The orbit path *)

(** The path drawn for the orbit is a closed circle: 129 points in the
    plane [y = 0], each at [radius] from the origin, the first and the
    last both at [(radius, 0, 0)]. *)
Theorem orbitPath_circle (radius : R) (i : nat) :
  (i <= 128)%nat ->
  length (orbitPath radius) = (3 * 129)%nat /\
  (let angle := INR i / INR 128 * PI * 2 in
   vertexAt (orbitPath radius) i = (cos angle * radius, 0, sin angle * radius)) /\
  dot (vertexAt (orbitPath radius) i) (vertexAt (orbitPath radius) i)
    = radius * radius /\
  vertexAt (orbitPath radius) 0 = (radius, 0, 0) /\
  vertexAt (orbitPath radius) 128 = (radius, 0, 0).
Proof.
  intros Hi.
  assert (Hat : forall k, (k <= 128)%nat ->
            let angle := INR k / INR 128 * PI * 2 in
            vertexAt (orbitPath radius) k =
            (cos angle * radius, 0, sin angle * radius)).
  { intros k Hk. cbv zeta. unfold vertexAt, orbitPath.
    rewrite <- (Nat.add_0_r (3 * k)) at 1.
    replace (3 * k + 0)%nat with (k * 3 + 0)%nat by lia.
    replace (3 * k + 1)%nat with (k * 3 + 1)%nat by lia.
    replace (3 * k + 2)%nat with (k * 3 + 2)%nat by lia.
    rewrite !(nth_flat_map_seq 0 3) by (try reflexivity; lia).
    reflexivity. }
  assert (H128 : INR 128 <> 0) by (apply not_0_INR; lia).
  split; [|split; [|split; [|split]]].
  - unfold orbitPath. rewrite flat_map_length_const with (k := 3%nat).
    + rewrite length_seq. reflexivity.
    + reflexivity.
  - now apply Hat.
  - rewrite (Hat i Hi). cbv zeta. cbn [dot].
    set (a := INR i / INR 128 * PI * 2).
    pose proof (sin2_cos2 a) as Ha. unfold Rsqr in Ha.
    replace (cos a * radius * (cos a * radius) + 0 * 0
             + sin a * radius * (sin a * radius))
      with ((sin a * sin a + cos a * cos a) * (radius * radius)) by ring.
    rewrite Ha. ring.
  - rewrite (Hat 0%nat) by lia. cbv zeta.
    replace (INR 0 / INR 128 * PI * 2) with 0
      by (cbn [INR]; unfold Rdiv; ring).
    rewrite cos_0, sin_0. f_equal; [f_equal|]; ring.
  - rewrite (Hat 128%nat) by lia. cbv zeta.
    replace (INR 128 / INR 128 * PI * 2) with (2 * PI) by (field; exact H128).
    rewrite cos_2PI, sin_2PI. f_equal; [f_equal|]; ring.
Qed.

Lemma orbitPath_circle_witness :
  length (orbitPath 3) = (3 * 129)%nat /\
  (let angle := INR 32 / INR 128 * PI * 2 in
   vertexAt (orbitPath 3) 32 = (cos angle * 3, 0, sin angle * 3)) /\
  dot (vertexAt (orbitPath 3) 32) (vertexAt (orbitPath 3) 32) = 3 * 3 /\
  vertexAt (orbitPath 3) 0 = (3, 0, 0) /\
  vertexAt (orbitPath 3) 128 = (3, 0, 0).
Proof. apply (orbitPath_circle 3 32). lia. Defined.

(** ** The index buffer *)

Lemma createSphere_indices_lt (radius : R) (segments rings : nat) :
  Forall (fun i => (i < (rings + 1) * (segments + 1))%nat)
    (indices (createSphere radius segments rings)).
Proof.
  cbn [createSphere indices].
  apply Forall_flat_map, Forall_forall. intros i Hi.
  apply Forall_flat_map, Forall_forall. intros j Hj.
  apply in_seq in Hi. apply in_seq in Hj.
  repeat constructor; nia.
Qed.

(** Indices survive the 16-bit index buffer as long as the mesh has at
    most 2^16 vertices: the buffer then holds the indices unchanged.  The
    engine's own sphere, 64 segments by 32 rings, has 2145. *)
Theorem indexBuffer_exact (radius : R) (segments rings : nat) :
  ((rings + 1) * (segments + 1) <= 2 ^ 16)%nat ->
  indexBuffer (createSphere radius segments rings) =
  indices (createSphere radius segments rings).
Proof.
  intros Hfit. unfold indexBuffer.
  pose proof (createSphere_indices_lt radius segments rings) as Hlt.
  induction Hlt as [|i l Hi _ IH]; [reflexivity|].
  cbn [map]. rewrite IH. f_equal. unfold toUint16.
  apply Nat.mod_small. lia.
Qed.

Lemma indexBuffer_exact_witness :
  indexBuffer engineSphere = indices engineSphere /\
  vertexCount engineSphere = 2145%nat.
Proof.
  split.
  - apply (indexBuffer_exact 1 64 32).
    apply Nat.leb_le. vm_compute. reflexivity.
  - apply createSphere_vertexCount.
Defined.

(** ** The countdown *)

Lemma countdown_ticks (k : nat) (v : Z) :
  (Z.of_nat k < v)%Z ->
  fold_left (fun t e => countdownStep e t) (repeat Tick k) v
  = (v - Z.of_nat k)%Z.
Proof.
  revert v. induction k as [|k IH]; intros v Hk.
  - cbn. lia.
  - cbn [repeat fold_left countdownStep countdownTick snd].
    destruct (Z.leb_spec (v - 1) 0); [lia|].
    rewrite IH by lia. lia.
Qed.

(** The counter the page shows runs from 29 down to 0 and starts over:
    what is kept always lies between 1 and 30, what a tick shows between 0
    and 29; [k] ticks after a manual change the counter stands at
    [30 - k], and the thirtieth tick shows 0 and puts it back to 30. *)
Theorem countdown_cycle (es : list CountdownEvent) (k : nat) :
  (k < 30)%nat ->
  (1 <= countdownRun es <= 30)%Z /\
  (0 <= fst (countdownTick (countdownRun es)) <= 29)%Z /\
  countdownRun (es ++ ManualChange :: repeat Tick k) = (30 - Z.of_nat k)%Z /\
  countdownTick (countdownRun (es ++ ManualChange :: repeat Tick 29))
  = (0%Z, 30%Z).
Proof.
  intros Hk.
  assert (Hrange : forall es, (1 <= countdownRun es <= 30)%Z).
  { intros l. unfold countdownRun.
    assert (H : forall v, (1 <= v <= 30)%Z ->
              (1 <= fold_left (fun t e => countdownStep e t) l v <= 30)%Z).
    { induction l as [|e l IH]; intros v Hv; [exact Hv|].
      cbn [fold_left]. apply IH. destruct e; cbn; [|lia].
      destruct (Z.leb_spec (v - 1) 0); lia. }
    apply H. lia. }
  assert (Hafter : forall n, (n < 30)%nat ->
            countdownRun (es ++ ManualChange :: repeat Tick n)
            = (30 - Z.of_nat n)%Z).
  { intros n Hn. unfold countdownRun. rewrite fold_left_app.
    cbn [fold_left countdownStep]. apply countdown_ticks. lia. }
  split; [apply Hrange|]. split; [|split].
  - pose proof (Hrange es). cbn. lia.
  - now apply Hafter.
  - rewrite Hafter by lia. reflexivity.
Qed.

Lemma countdown_cycle_witness :
  (1 <= countdownRun [Tick; Tick; ManualChange; Tick] <= 30)%Z /\
  (0 <= fst (countdownTick (countdownRun [Tick; Tick; ManualChange; Tick]))
   <= 29)%Z /\
  countdownRun ([Tick; Tick; ManualChange; Tick] ++ ManualChange :: repeat Tick 7)
  = (30 - Z.of_nat 7)%Z /\
  countdownTick
    (countdownRun ([Tick; Tick; ManualChange; Tick]
                   ++ ManualChange :: repeat Tick 29))
  = (0%Z, 30%Z).
Proof. apply (countdown_cycle [Tick; Tick; ManualChange; Tick] 7). lia. Defined.
